(** * SQL dialect translation (sqlutils/dialect.go)

    A shallow embedding of [dialect.go]: the three rule tables, the five
    statement classifiers, [applyConversions] and [ToSqlite3Dialect], on top
    of a model of the part of Go's [regexp] and [strings] packages that the
    file uses.

    Text is modelled as the sequence of runes (Unicode code points) that the
    [regexp] package decodes from a Go string; a rune is an [int32], here a
    [Z].  Patterns and replacement templates are kept as the string literals
    of the source and are parsed, so that the rule tables below can be read
    side by side with the Go file. *)

From Stdlib Require Import ZArith List String Ascii Bool Lia Arith.
Import ListNotations.

Local Open Scope Z_scope.

(** ** Runes and strings *)

Definition rune := Z.
Definition gostring := list rune.

Definition rune_of_ascii (a : ascii) : rune := Z.of_N (N_of_ascii a).

(** The runes of an ASCII literal. *)
Definition runes (s : string) : gostring := map rune_of_ascii (list_ascii_of_string s).

Definition in_range (lo hi x : rune) : bool := (lo <=? x) && (x <=? hi).

(** Perl character classes, as RE2 defines them (ASCII only). *)
Definition is_space (x : rune) : bool :=
  (x =? 9) || (x =? 10) || (x =? 12) || (x =? 13) || (x =? 32).

Definition is_digit (x : rune) : bool := in_range 48 57 x.

Definition is_upper (x : rune) : bool := in_range 65 90 x.
Definition is_lower (x : rune) : bool := in_range 97 122 x.

Definition is_word (x : rune) : bool :=
  is_digit x || is_upper x || is_lower x || (x =? 95).

(** ASCII lower-casing of one rune; every other rune is left alone. *)
Definition to_lower (x : rune) : rune := if is_upper x then x + 32 else x.

(** The orbit of a rune under [unicode.SimpleFold], for the runes whose orbit
    meets ASCII: the two cases of an ASCII letter, plus U+212A (Kelvin sign)
    with k and U+017F (long s) with s.  The orbit of any other rune contains
    no ASCII rune, and patterns are ASCII, so only the rune itself is listed
    for it. *)
Definition orbit (x : rune) : list rune :=
  x ::
  (if is_upper x then [x + 32] else if is_lower x then [x - 32] else []) ++
  (if (x =? 75) || (x =? 107) then [8490]
   else if x =? 8490 then [75; 107] else []) ++
  (if (x =? 83) || (x =? 115) then [383]
   else if x =? 383 then [83; 115] else []).

(** ** Module [strings] *)

Module strings.

Fixpoint has_prefix (p s : list ascii) : bool :=
  match p, s with
  | [], _ => true
  | a :: p', b :: s' => Ascii.eqb a b && has_prefix p' s'
  | _ :: _, [] => false
  end.

(** [replace limit skip old new s]: non-overlapping occurrences of [old] in
    [s] are replaced from left to right, [limit] of them at most ([None]:
    all).  [skip] counts the characters of the occurrence just replaced that
    are still to be dropped. *)
Fixpoint replace (limit : option nat) (skip : nat) (old new s : list ascii)
  : list ascii :=
  match s with
  | [] => []
  | c :: s' =>
      match skip with
      | S k => replace limit k old new s'
      | O =>
          let allowed := match limit with Some O => false | _ => true end in
          if allowed && has_prefix old s
          then new ++ replace (option_map Nat.pred limit)
                        (Nat.pred (List.length old)) old new s'
          else c :: replace limit O old new s'
      end
  end.

(** [strings.Replace(s, old, new, n)] for a non-empty [old]; a negative [n]
    puts no limit on the number of replacements.  (With an empty [old] Go
    inserts [new] between the runes; the file never does that, and [s] is
    returned here.) *)
Definition Replace (s old new : string) (n : Z) : string :=
  match list_ascii_of_string old with
  | [] => s
  | o =>
      string_of_list_ascii
        (replace (if n <? 0 then None else Some (Z.to_nat n)) O o
           (list_ascii_of_string new) (list_ascii_of_string s))
  end.

End strings.

(** ** Module [regexp]: syntax *)

Module regexp.

Inductive perl := PDigit | PSpace | PWord.

Inductive citem :=
| CRange (lo hi : rune)
| CPerl (neg : bool) (p : perl).

(** A character class: a bracket expression, a Perl class, [.] or, as a
    one-rune range, a literal.  [cfold] records the [(?i)] flag. *)
Record cclass := { cneg : bool; cfold : bool; citems : list citem }.

(** The subset of RE2 syntax that the patterns of [dialect.go] use.  A
    repetition operator is applied to single-rune atoms only. *)
Inductive regex :=
| Empty
| Char (c : cclass)
| Repeat (c : cclass) (min : nat) (greedy : bool)
| Cat (r1 r2 : regex)
| Alt (r1 r2 : regex)
| Capture (n : nat) (r : regex)
| BeginText
| EndText
| WordBoundary.

Definition perl_match (p : perl) (x : rune) : bool :=
  match p with
  | PDigit => is_digit x
  | PSpace => is_space x
  | PWord => is_word x
  end.

Definition folded (fold : bool) (x : rune) : list rune :=
  if fold then orbit x else [x].

Definition item_match (fold : bool) (x : rune) (i : citem) : bool :=
  match i with
  | CRange lo hi => existsb (in_range lo hi) (folded fold x)
  | CPerl neg p => xorb neg (existsb (perl_match p) (folded fold x))
  end.

Definition class_match (c : cclass) (x : rune) : bool :=
  xorb (cneg c) (existsb (item_match (cfold c) x) (citems c)).

(** ** Parsing *)

Definition lit (fold : bool) (a : ascii) : cclass :=
  {| cneg := false; cfold := fold;
     citems := [CRange (rune_of_ascii a) (rune_of_ascii a)] |}.

(** [.] without the [s] flag: any rune but newline. *)
Definition dot (fold : bool) : cclass :=
  {| cneg := true; cfold := fold; citems := [CRange 10 10] |}.

Definition perl_of (a : ascii) : option citem :=
  match a with
  | "d"%char => Some (CPerl false PDigit)
  | "D"%char => Some (CPerl true PDigit)
  | "s"%char => Some (CPerl false PSpace)
  | "S"%char => Some (CPerl true PSpace)
  | "w"%char => Some (CPerl false PWord)
  | "W"%char => Some (CPerl true PWord)
  | _ => None
  end.

Definition is_ascii7 (a : ascii) : bool := (N_of_ascii a <? 128)%N.

Definition is_alnum (a : ascii) : bool :=
  let x := rune_of_ascii a in is_digit x || is_upper x || is_lower x.

(** The items of a bracket expression, up to the closing bracket. *)
Fixpoint parse_items (s : list ascii) (acc : list citem)
  : option (list citem * list ascii) :=
  match s with
  | [] => None
  | "]"%char :: s' => Some (rev acc, s')
  | "["%char :: _ => None
  | "\"%char :: a :: s' =>
      match perl_of a with
      | Some i => parse_items s' (i :: acc)
      | None =>
          if is_alnum a || negb (is_ascii7 a) then None
          else parse_items s' (CRange (rune_of_ascii a) (rune_of_ascii a) :: acc)
      end
  | "\"%char :: [] => None
  | a :: "-"%char :: b :: s' =>
      if negb (is_ascii7 a) then None
      else
        match b with
        | "]"%char =>
            Some (rev (CRange 45 45 :: CRange (rune_of_ascii a) (rune_of_ascii a) :: acc), s')
        | "\"%char => None
        | _ =>
            if negb (is_ascii7 b) || (rune_of_ascii b <? rune_of_ascii a) then None
            else parse_items s' (CRange (rune_of_ascii a) (rune_of_ascii b) :: acc)
        end
  | a :: s' =>
      if negb (is_ascii7 a) then None
      else parse_items s' (CRange (rune_of_ascii a) (rune_of_ascii a) :: acc)
  end.

Definition parse_class (fold : bool) (s : list ascii)
  : option (cclass * list ascii) :=
  match s with
  | "^"%char :: s' =>
      match parse_items s' [] with
      | Some (its, r) => Some ({| cneg := true; cfold := fold; citems := its |}, r)
      | None => None
      end
  | _ =>
      match parse_items s [] with
      | Some (its, r) => Some ({| cneg := false; cfold := fold; citems := its |}, r)
      | None => None
      end
  end.

(** A repetition operator after a single-rune atom: [*], [+], and their
    non-greedy forms. *)
Definition quantified (c : cclass) (s : list ascii) : option (regex * list ascii) :=
  match s with
  | "*"%char :: "?"%char :: s' => Some (Repeat c 0 false, s')
  | "+"%char :: "?"%char :: s' => Some (Repeat c 1 false, s')
  | "*"%char :: s' => Some (Repeat c 0 true, s')
  | "+"%char :: s' => Some (Repeat c 1 true, s')
  | "?"%char :: _ => None
  | "{"%char :: _ => None
  | _ => Some (Char c, s)
  end.

Definition is_quantifier (s : list ascii) : bool :=
  match s with
  | "*"%char :: _ | "+"%char :: _ | "?"%char :: _ | "{"%char :: _ => true
  | _ => false
  end.

Fixpoint cat_of (rs : list regex) : regex :=
  match rs with
  | [] => Empty
  | [r] => r
  | r :: rs' => Cat r (cat_of rs')
  end.

(** [alts] holds the finished alternatives, last first; [cur] the pieces of
    the current one, last first. *)
Definition alt_of (alts : list regex) (cur : list regex) : regex :=
  fold_left (fun acc a => Alt a acc) alts (cat_of (rev cur)).

(** The parser proper.  It stops at the end of the pattern or in front of an
    unmatched closing parenthesis, and returns the expression read, the
    number of capture groups opened so far and the rest of the pattern.
    Each step consumes at least one character, so [length pattern + 1] is
    enough fuel. *)
Fixpoint parse_re (fuel : nat) (fold : bool) (ncap : nat) (s : list ascii)
         (alts cur : list regex) : option (regex * nat * list ascii) :=
  match fuel with
  | O => None
  | S fuel' =>
      match s with
      | [] => Some (alt_of alts cur, ncap, [])
      | ")"%char :: _ => Some (alt_of alts cur, ncap, s)
      | "|"%char :: s' =>
          parse_re fuel' fold ncap s' (cat_of (rev cur) :: alts) []
      | "("%char :: "?"%char :: _ => None
      | "("%char :: s' =>
          match parse_re fuel' fold (S ncap) s' [] [] with
          | Some (r, ncap', ")"%char :: s'') =>
              if is_quantifier s'' then None
              else parse_re fuel' fold ncap' s'' alts (Capture (S ncap) r :: cur)
          | _ => None
          end
      | "["%char :: s' =>
          match parse_class fold s' with
          | Some (c, s'') =>
              match quantified c s'' with
              | Some (r, s3) => parse_re fuel' fold ncap s3 alts (r :: cur)
              | None => None
              end
          | None => None
          end
      | "."%char :: s' =>
          match quantified (dot fold) s' with
          | Some (r, s3) => parse_re fuel' fold ncap s3 alts (r :: cur)
          | None => None
          end
      | "^"%char :: s' =>
          if is_quantifier s' then None
          else parse_re fuel' fold ncap s' alts (BeginText :: cur)
      | "$"%char :: s' =>
          if is_quantifier s' then None
          else parse_re fuel' fold ncap s' alts (EndText :: cur)
      | "\"%char :: "b"%char :: s' =>
          if is_quantifier s' then None
          else parse_re fuel' fold ncap s' alts (WordBoundary :: cur)
      | "\"%char :: a :: s' =>
          match perl_of a with
          | Some i =>
              match quantified {| cneg := false; cfold := fold; citems := [i] |} s' with
              | Some (r, s3) => parse_re fuel' fold ncap s3 alts (r :: cur)
              | None => None
              end
          | None =>
              if is_alnum a || negb (is_ascii7 a) then None
              else
                match quantified (lit fold a) s' with
                | Some (r, s3) => parse_re fuel' fold ncap s3 alts (r :: cur)
                | None => None
                end
          end
      | "\"%char :: [] => None
      | "*"%char :: _ | "+"%char :: _ | "?"%char :: _ | "{"%char :: _ => None
      | a :: s' =>
          if negb (is_ascii7 a) then None
          else
            match quantified (lit fold a) s' with
            | Some (r, s3) => parse_re fuel' fold ncap s3 alts (r :: cur)
            | None => None
            end
      end
  end.

(** A compiled expression: the program and the number of capture groups. *)
Record Regexp := { prog : regex; numSubexp : nat }.

(** [regexp.Compile]; the flag group [(?i)] is accepted at the head of the
    pattern, where every pattern of [dialect.go] has it. *)
Definition Compile (expr : string) : option Regexp :=
  let s := list_ascii_of_string expr in
  let '(fold, body) :=
    match s with
    | "("%char :: "?"%char :: "i"%char :: ")"%char :: s' => (true, s')
    | _ => (false, s)
    end in
  match parse_re (S (List.length body)) fold O body [] [] with
  | Some (r, n, []) => Some {| prog := r; numSubexp := n |}
  | _ => None
  end.

(** [regexp.MustCompile] panics where [Compile] fails; the expression that
    matches nothing stands for the panic, and [compiles] below shows that
    no pattern of the file reaches it. *)
Definition never : Regexp :=
  {| prog := Char {| cneg := false; cfold := false; citems := [] |}; numSubexp := O |}.

Definition MustCompile (expr : string) : Regexp :=
  match Compile expr with
  | Some re => re
  | None => never
  end.

Definition is_never (re : Regexp) : bool :=
  match prog re with
  | Char c => match citems c with [] => true | _ :: _ => false end
  | _ => false
  end.


(** ** Matching

    Go's [regexp] returns the leftmost match and, among the matches that
    start there, the one a backtracking search finds first.  The matcher
    below is that backtracking search, written with continuations.  A match
    is Go's [[]int] location array, kept as one optional pair per group:
    entry 0 is the whole match, entry [i] is group [i], [None] is Go's [-1]. *)

Local Open Scope nat_scope.

Definition loc := list (option (nat * nat)).

(** The rest of a match: position, rune before it, remaining input,
    groups set so far. *)
Definition cont := nat -> option rune -> gostring -> loc -> option loc.

Fixpoint set_nth {A : Type} (n : nat) (v : A) (l : list A) : list A :=
  match l, n with
  | [], _ => []
  | _ :: l', O => v :: l'
  | x :: l', S n' => x :: set_nth n' v l'
  end.

Definition word_before (pv : option rune) : bool :=
  match pv with Some x => is_word x | None => false end.

Definition word_after (rs : gostring) : bool :=
  match rs with x :: _ => is_word x | [] => false end.

(** Greedy repetition of a class: the longest run is tried first. *)
Fixpoint rep_greedy (c : cclass) (min : nat) (p : nat) (pv : option rune)
         (rs : gostring) (cs : loc) (k : cont) : option loc :=
  let stop := match min with O => k p pv rs cs | S _ => None end in
  match rs with
  | x :: rs' =>
      if class_match c x then
        match rep_greedy c (Nat.pred min) (S p) (Some x) rs' cs k with
        | Some l => Some l
        | None => stop
        end
      else stop
  | [] => stop
  end.

(** Non-greedy repetition: the shortest run is tried first. *)
Fixpoint rep_lazy (c : cclass) (min : nat) (p : nat) (pv : option rune)
         (rs : gostring) (cs : loc) (k : cont) : option loc :=
  let more :=
    match rs with
    | x :: rs' =>
        if class_match c x
        then rep_lazy c (Nat.pred min) (S p) (Some x) rs' cs k
        else None
    | [] => None
    end in
  match min with
  | O => match k p pv rs cs with Some l => Some l | None => more end
  | S _ => more
  end.

Fixpoint m (r : regex) (p : nat) (pv : option rune) (rs : gostring) (cs : loc)
         (k : cont) : option loc :=
  match r with
  | Empty => k p pv rs cs
  | Char c =>
      match rs with
      | x :: rs' => if class_match c x then k (S p) (Some x) rs' cs else None
      | [] => None
      end
  | Repeat c min true => rep_greedy c min p pv rs cs k
  | Repeat c min false => rep_lazy c min p pv rs cs k
  | Cat r1 r2 =>
      m r1 p pv rs cs (fun p' pv' rs' cs' => m r2 p' pv' rs' cs' k)
  | Alt r1 r2 =>
      match m r1 p pv rs cs k with
      | Some l => Some l
      | None => m r2 p pv rs cs k
      end
  | Capture n r1 =>
      m r1 p pv rs cs
        (fun p' pv' rs' cs' => k p' pv' rs' (set_nth n (Some (p, p')) cs'))
  | BeginText => match pv with None => k p pv rs cs | Some _ => None end
  | EndText => match rs with [] => k p pv rs cs | _ :: _ => None end
  | WordBoundary =>
      if xorb (word_before pv) (word_after rs) then k p pv rs cs else None
  end.

(** The end of the expression: the whole match is recorded. *)
Definition accept (start : nat) : cont :=
  fun p' _ _ cs => Some (set_nth 0 (Some (start, p')) cs).

(** Leftmost: the first start position at which the search succeeds. *)
Fixpoint search (r : regex) (ncap : nat) (p : nat) (pv : option rune)
         (rs : gostring) : option loc :=
  match m r p pv rs (repeat None (S ncap)) (accept p) with
  | Some l => Some l
  | None =>
      match rs with
      | [] => None
      | x :: rs' => search r ncap (S p) (Some x) rs'
      end
  end.

(** The rune before position [pos], if any. *)
Definition rune_before (src : gostring) (pos : nat) : option rune :=
  match pos with O => None | S q => nth_error src q end.

(** [doExecute]: the first match at or after [pos], in the context of the
    whole of [src]. *)
Definition doExecute (re : Regexp) (src : gostring) (pos : nat) : option loc :=
  search (prog re) (numSubexp re) pos (rune_before src pos) (skipn pos src).

Definition MatchString (re : Regexp) (s : gostring) : bool :=
  match doExecute re s 0 with Some _ => true | None => false end.

(** ** Replacement *)

Definition slice (src : gostring) (a b : nat) : gostring := firstn (b - a) (skipn a src).

Fixpoint span (f : rune -> bool) (l : gostring) : gostring * gostring :=
  match l with
  | x :: l' =>
      if f x then let (a, b) := span f l' in (x :: a, b) else ([], l)
  | [] => ([], [])
  end.

(** The number a group name denotes, [-1] if it is not a number. *)
Fixpoint digits (name : gostring) (num : Z) : Z :=
  match name with
  | [] => num
  | d :: name' =>
      if (negb (is_digit d) || (100000000 <=? num)%Z)%bool then (-1)%Z
      else digits name' (num * 10 + (d - 48))%Z
  end.

(** [extract]: the name at the head of [str], which follows a [$]: the name
    as written, the number it denotes and the rest of the template.  Names
    are made of letters, digits and underscores; templates are ASCII. *)
Definition extract (str : gostring) : option (gostring * Z * gostring) :=
  match str with
  | [] => None
  | c :: str' =>
      let brace := (c =? 123)%Z in
      let (name, after) := span is_word (if brace then str' else str) in
      match name with
      | [] => None
      | n0 :: _ =>
          let num :=
            if ((n0 =? 48)%Z && (1 <? List.length name))%bool then (-1)%Z
            else digits name 0%Z in
          if brace then
            match after with
            | b :: rest => if (b =? 125)%Z then Some (name, num, rest) else None
            | [] => None
            end
          else Some (name, num, after)
      end
  end.

(** The text of the group a reference denotes.  No pattern of the file names
    a group, so a reference by name finds none and expands to nothing. *)
Definition group_text (src : gostring) (a : loc) (num : Z) : gostring :=
  if (num <? 0)%Z then []
  else
    match nth_error a (Z.to_nat num) with
    | Some (Some (b, e)) => slice src b e
    | _ => []
    end.

(** [Regexp.expand]: the template with [$n], [${n}] and [$$] interpreted.
    [skip] counts the runes of the reference just interpreted that are still
    to be passed over. *)
Fixpoint expand (skip : nat) (template : gostring) (src : gostring) (a : loc) : gostring :=
  match template with
  | [] => []
  | c :: t =>
      match skip with
      | S k => expand k t src a
      | O =>
          if (c =? 36)%Z then
            match t with
            | d :: _ =>
                if (d =? 36)%Z then 36%Z :: expand 1 t src a
                else
                  match extract t with
                  | Some (_, num, rest) =>
                      group_text src a num ++ expand (List.length t - List.length rest) t src a
                  | None => 36%Z :: expand 0 t src a
                  end
            | [] => [36%Z]
            end
          else c :: expand 0 t src a
      end
  end.

(** [Regexp.replaceAll]: the loop over the successive matches.  [lastMatchEnd]
    is the end of the most recent match, [searchPos] the position where the
    next one is looked for, [buf] the output so far.  [searchPos] grows with
    every turn, so [List.length src + 2] turns are enough ([replaceAll_total]). *)
Fixpoint replaceAll (fuel : nat) (re : Regexp) (src : gostring) (repl : loc -> gostring)
         (lastMatchEnd searchPos : nat) (buf : gostring) : option gostring :=
  match fuel with
  | O => None
  | S fuel' =>
      if searchPos <=? List.length src then
        match doExecute re src searchPos with
        | Some ((Some (a0, a1) :: _) as a) =>
            let buf := buf ++ slice src lastMatchEnd a0 in
            let buf :=
              if ((lastMatchEnd <? a1) || (a0 =? 0))%bool then buf ++ repl a else buf in
            let width := if searchPos <? List.length src then 1 else 0 in
            let searchPos' :=
              if a1 <? searchPos + width then searchPos + width
              else if a1 <? searchPos + 1 then searchPos + 1
              else a1 in
            replaceAll fuel' re src repl a1 searchPos' buf
        | _ => Some (buf ++ skipn lastMatchEnd src)
        end
      else Some (buf ++ skipn lastMatchEnd src)
  end.

Definition ReplaceAllString (re : Regexp) (src : gostring) (repl : string) : gostring :=
  match replaceAll (List.length src + 2) re src (expand 0 (runes repl) src) 0 0 [] with
  | Some b => b
  | None => src
  end.

(** ** What a match is

    [lang r pv u rs'] says that [r] can match the runes [u] when the rune
    before them is [pv] and the input goes on with [rs'].  It is the
    specification the backtracking search is compared with: the search
    succeeds exactly when some such [u] exists, and then prefers one of them. *)

Definition last_rune (pv : option rune) (u : gostring) : option rune :=
  fold_left (fun _ x => Some x) u pv.

Fixpoint lang (r : regex) (pv : option rune) (u rs' : gostring) : Prop :=
  match r with
  | Empty => u = []
  | Char c => exists x, u = [x] /\ class_match c x = true
  | Repeat c min _ => forallb (class_match c) u = true /\ min <= List.length u
  | Cat r1 r2 =>
      exists u1 u2, u = u1 ++ u2 /\ lang r1 pv u1 (u2 ++ rs')
                    /\ lang r2 (last_rune pv u1) u2 rs'
  | Alt r1 r2 => lang r1 pv u rs' \/ lang r2 pv u rs'
  | Capture _ r1 => lang r1 pv u rs'
  | BeginText => u = [] /\ pv = None
  | EndText => u = [] /\ rs' = []
  | WordBoundary => u = [] /\ xorb (word_before pv) (word_after rs') = true
  end.

(** No capture group inside. *)
Fixpoint nocap (r : regex) : bool :=
  match r with
  | Cat r1 r2 | Alt r1 r2 => nocap r1 && nocap r2
  | Capture _ _ => false
  | _ => true
  end.

(** Every class was read under [(?i)]. *)
Fixpoint all_fold (r : regex) : bool :=
  match r with
  | Char c | Repeat c _ _ => cfold c
  | Cat r1 r2 | Alt r1 r2 => all_fold r1 && all_fold r2
  | Capture _ r1 => all_fold r1
  | _ => true
  end.

(** ** Classes and shapes that the patterns of the file are made of *)

(** The lower-case rune a rune is folded to by [(?i)], for the runes that
    fold to ASCII. *)
Definition fold_lower (x : rune) : rune :=
  if is_upper x then (x + 32)%Z
  else if (x =? 8490)%Z then 107%Z else if (x =? 383)%Z then 115%Z else x.

(** [[\s]], [[\S]], [[\s\S]], [[\w]] and [[=<>\s]] under [(?i)]. *)
Definition space_class : cclass :=
  {| cneg := false; cfold := true; citems := [CPerl false PSpace] |}.
Definition nonspace_class : cclass :=
  {| cneg := false; cfold := true; citems := [CPerl true PSpace] |}.
Definition any_class : cclass :=
  {| cneg := false; cfold := true;
     citems := [CPerl false PSpace; CPerl true PSpace] |}.
Definition word_class : cclass :=
  {| cneg := false; cfold := true; citems := [CPerl false PWord] |}.
Definition op_class : cclass :=
  {| cneg := false; cfold := true;
     citems := [CRange 61%Z 61%Z; CRange 60%Z 60%Z; CRange 62%Z 62%Z;
                CPerl false PSpace] |}.

(** A letter, a run of whitespace and a keyword, as the parser reads them
    under [(?i)]. *)
Definition ci (a : ascii) : regex := Char (lit true a).
Definition spaces (min : nat) : regex := Repeat space_class min true.
Definition keyword (kw : string) : list regex :=
  map ci (list_ascii_of_string kw).

Definition lower_word (kw : list ascii) : bool :=
  forallb (fun a => is_lower (rune_of_ascii a)) kw.

Fixpoint skip_spaces (s : gostring) : gostring :=
  match s with
  | x :: s' => if is_space x then skip_spaces s' else s
  | [] => []
  end.

Fixpoint take_spaces (s : gostring) : gostring :=
  match s with
  | x :: s' => if is_space x then x :: take_spaces s' else []
  | [] => []
  end.

(** [kw_prefix kw s]: what follows the keyword [kw] at the head of [s],
    letters compared as [(?i)] compares them. *)
Fixpoint kw_prefix (kw : gostring) (s : gostring) : option gostring :=
  match kw, s with
  | [], _ => Some s
  | a :: kw', x :: s' => if (fold_lower x =? a)%Z then kw_prefix kw' s' else None
  | _ :: _, [] => None
  end.

Definition spaced (s : gostring) : bool :=
  match s with x :: _ => is_space x | [] => false end.

Definition ok {A : Type} (o : option A) : bool :=
  match o with Some _ => true | None => false end.

(** [after_keywords kws first s]: what follows the keywords [kws] at the
    head of [s], each keyword after whitespace; in front of the first one
    the whitespace may be missing. *)
Fixpoint after_keywords (kws : list string) (first : bool) (s : gostring)
  : option gostring :=
  match kws with
  | [] => Some s
  | kw :: kws' =>
      if (first || spaced s)%bool then
        match kw_prefix (runes kw) (skip_spaces s) with
        | Some s' => after_keywords kws' false s'
        | None => None
        end
      else None
  end.

(** The statement starts with these keywords, in any letter case, after
    optional whitespace. *)
Definition starts_with (kws : list string) (s : gostring) : bool :=
  ok (after_keywords kws true s).

(** The expression for a sequence of keywords. *)
Fixpoint chain (kws : list string) (first : bool) : list regex :=
  match kws with
  | [] => []
  | kw :: kws' =>
      spaces (if first then 0 else 1) :: keyword kw ++ chain kws' false
  end.

Definition good_keyword (kw : string) : bool :=
  match list_ascii_of_string kw with
  | [] => false
  | l => lower_word l
  end.

End regexp.

(** ** dialect.go *)

Local Open Scope string_scope.

Record regexpMap := { r : regexp.Regexp; replacement : string }.

Definition process (this : regexpMap) (text : gostring) : gostring :=
  regexp.ReplaceAllString (r this) text (replacement this).

Definition regexpSpaces (statement : string) : string :=
  strings.Replace statement " " "[\s]+" (-1).

Definition rmap (regexpExpression : string) (replacement : string) : regexpMap :=
  {| r := regexp.MustCompile (regexpSpaces regexpExpression);
     replacement := replacement |}.

Definition createTableConversions : list regexpMap := [
  rmap "(?i) (character set|charset) [\S]+" "";
  rmap "(?i)int unsigned" "int";
  rmap "(?i)int[\s]*[(][\s]*([0-9]+)[\s]*[)] unsigned" "int";
  rmap "(?i)engine[\s]*=[\s]*(innodb|myisam|ndb|memory|tokudb)" "";
  rmap "(?i)DEFAULT CHARSET[\s]*=[\s]*[\S]+" "";
  rmap "(?i)int( not null|) auto_increment" "integer";
  rmap "(?i)comment '[^']*'" "";
  rmap "(?i)after [\S]+" "";
  rmap "(?i)alter table ([\S]+) add (index|key) ([\S]+) (.+)" "create index ${3}_${1} on $1 $4";
  rmap "(?i)alter table ([\S]+) add unique (index|key) ([\S]+) (.+)" "create unique index ${3}_${1} on $1 $4";
  rmap "(?i)([\S]+) enum[\s]*([(].*?[)])" "$1 text check($1 in $2)";
  rmap "(?i)([\s\S]+[/][*] sqlite3-skip [*][/][\s\S]+)" "";
  rmap "(?i)timestamp default current_timestamp" "timestamp default ('')";
  rmap "(?i)timestamp not null default current_timestamp" "timestamp not null default ('')";

  rmap "(?i)add column (.*int) not null[\s]*$" "add column $1 not null default 0";
  rmap "(?i)add column (.* text) not null[\s]*$" "add column $1 not null default ''";
  rmap "(?i)add column (.* varchar.*) not null[\s]*$" "add column $1 not null default ''"
].

Definition insertConversions : list regexpMap := [
  rmap "(?i)insert ignore" "insert or ignore";
  rmap "(?i)now[(][)]" "datetime('now')";
  rmap "(?i)insert into ([\s\S]+) on duplicate key update [\s\S]+" "replace into $1"
].

Definition generalConversions : list regexpMap := [
  rmap "(?i)now[(][)][\s]*[-][\s]*interval [?] ([\w]+)" "datetime('now', printf('-%d $1', ?))";
  rmap "(?i)now[(][)][\s]*[+][\s]*interval [?] ([\w]+)" "datetime('now', printf('+%d $1', ?))";
  rmap "(?i)now[(][)][\s]*[-][\s]*interval ([0-9.]+) ([\w]+)" "datetime('now', '-${1} $2')";
  rmap "(?i)now[(][)][\s]*[+][\s]*interval ([0-9.]+) ([\w]+)" "datetime('now', '+${1} $2')";

  rmap "(?i)[=<>\s]([\S]+[.][\S]+)[\s]*[-][\s]*interval [?] ([\w]+)" " datetime($1, printf('-%d $2', ?))";
  rmap "(?i)[=<>\s]([\S]+[.][\S]+)[\s]*[+][\s]*interval [?] ([\w]+)" " datetime($1, printf('+%d $2', ?))";

  rmap "(?i)unix_timestamp[(][)]" "strftime('%s', 'now')";
  rmap "(?i)unix_timestamp[(]([^)]+)[)]" "strftime('%s', $1)";
  rmap "(?i)now[(][)]" "datetime('now')";
  rmap "(?i)cast[(][\s]*([\S]+) as signed[\s]*[)]" "cast($1 as integer)";

  rmap "(?i)\bconcat[(][\s]*([^,)]+)[\s]*,[\s]*([^,)]+)[\s]*[)]" "($1 || $2)";
  rmap "(?i)\bconcat[(][\s]*([^,)]+)[\s]*,[\s]*([^,)]+)[\s]*,[\s]*([^,)]+)[\s]*[)]" "($1 || $2 || $3)";

  rmap "(?i) rlike " " like ";

  rmap "(?i)create index([\s\S]+)[(][\s]*[0-9]+[\s]*[)]([\s\S]+)" "create index ${1}${2}"
].

Definition identifyCreateTableStatement :=
  regexp.MustCompile (regexpSpaces "(?i)^[\s]*create table").
Definition identifyCreateIndexStatement :=
  regexp.MustCompile (regexpSpaces "(?i)^[\s]*create( unique|) index").
Definition identifyDropIndexStatement :=
  regexp.MustCompile (regexpSpaces "(?i)^[\s]*drop index").
Definition identifyAlterTableStatement :=
  regexp.MustCompile (regexpSpaces "(?i)^[\s]*alter table").
Definition identifyInsertStatement :=
  regexp.MustCompile (regexpSpaces "(?i)^[\s]*(insert|replace)").

Definition IsInsert (statement : gostring) : bool :=
  regexp.MatchString identifyInsertStatement statement.

Definition IsCreateTable (statement : gostring) : bool :=
  regexp.MatchString identifyCreateTableStatement statement.

Definition IsCreateIndex (statement : gostring) : bool :=
  regexp.MatchString identifyCreateIndexStatement statement.

Definition IsDropIndex (statement : gostring) : bool :=
  regexp.MatchString identifyDropIndexStatement statement.

Definition IsAlterTable (statement : gostring) : bool :=
  regexp.MatchString identifyAlterTableStatement statement.

Fixpoint applyConversions (statement : gostring) (conversions : list regexpMap) : gostring :=
  match conversions with
  | [] => statement
  | rmap :: conversions' => applyConversions (process rmap statement) conversions'
  end.

Definition ToSqlite3CreateTable (statement : gostring) : gostring :=
  applyConversions statement createTableConversions.

Definition ToSqlite3Insert (statement : gostring) : gostring :=
  applyConversions statement insertConversions.

Definition ToSqlite3Dialect (statement : gostring) : gostring :=
  if IsCreateTable statement then ToSqlite3CreateTable statement
  else if IsAlterTable statement then ToSqlite3CreateTable statement
  else
    let statement := applyConversions statement generalConversions in
    if IsInsert statement then ToSqlite3Insert statement
    else statement.

(** The rule of [createTableConversions] that suppresses a statement, the
    comment it looks for, and the expression between its two [[\s\S]+]. *)
Definition skipRule : regexpMap :=
  rmap "(?i)([\s\S]+[/][*] sqlite3-skip [*][/][\s\S]+)" "".

Definition skip_marker : gostring := runes "/* sqlite3-skip */".

Definition marker_re : list regexp.regex :=
  (regexp.keyword "/*"
   ++ regexp.spaces 1 :: regexp.keyword "sqlite3-skip"
   ++ regexp.spaces 1 :: regexp.keyword "*/")%list.

(** The two rules of [generalConversions] for date arithmetic on a
    qualified column, [sign] being [-] or [+]. *)
Definition intervalRule (sign : ascii) : regexpMap :=
  rmap (String.append "(?i)[=<>\s]([\S]+[.][\S]+)[\s]*["
          (String sign "][\s]*interval [?] ([\w]+)"))
       (String.append " datetime($1, printf('" (String sign "%d $2', ?))")).

Definition is_sign (sign : ascii) : Prop := sign = "-"%char \/ sign = "+"%char.



Definition nonspace_all (s : gostring) : bool :=
  forallb (fun x => negb (is_space x)) s.


(** The parts of the expression of [intervalRule]: the group around the
    column reference, what lies between it and the unit, and the unit. *)
Definition dot_class : regexp.cclass := regexp.lit true ".".

Definition interval_ref : regexp.regex :=
  regexp.Capture 1
    (regexp.cat_of [regexp.Repeat regexp.nonspace_class 1 true;
                    regexp.Char dot_class;
                    regexp.Repeat regexp.nonspace_class 1 true]).

Definition interval_tail1 (sign : ascii) : list regexp.regex :=
  (regexp.Repeat regexp.space_class 0 true
   :: regexp.Char (regexp.lit true sign)
   :: regexp.Repeat regexp.space_class 0 true
   :: regexp.keyword "interval"
   ++ [regexp.spaces 1; regexp.Char (regexp.lit true "?")])%list.

Definition interval_tail2 : list regexp.regex :=
  [regexp.spaces 1; regexp.Capture 2 (regexp.Repeat regexp.word_class 1 true)].



(** The answers of the five classifiers on one statement. *)
Definition classify (statement : gostring) : list bool :=
  [IsInsert statement; IsCreateTable statement; IsCreateIndex statement;
   IsDropIndex statement; IsAlterTable statement].

(** Whether a pattern holds a space, and how many of them. *)
Definition has_space (s : string) : bool :=
  existsb (Ascii.eqb " ") (list_ascii_of_string s).

Definition count_spaces (s : string) : nat :=
  List.length (filter (Ascii.eqb " ") (list_ascii_of_string s)).

(** A replacement template that starts with a rune other than [$]: whatever
    the match, its expansion starts with that rune. *)
Definition literal_head (template : string) : bool :=
  match runes template with
  | c :: _ => negb (c =? 36)%Z
  | [] => false
  end.

(** The first rune of the statement that is not whitespace folds to one of
    [letters]. *)
Definition first_rune_in (letters : list rune) (s : gostring) : bool :=
  match regexp.skip_spaces s with
  | x :: _ => existsb (Z.eqb (regexp.fold_lower x)) letters
  | [] => false
  end.

(** The two rules of [createTableConversions] that turn ALTER TABLE ... ADD
    INDEX into CREATE INDEX, [unique] telling which of them. *)
Definition addIndexRule (unique : bool) : regexpMap :=
  rmap (String.append "(?i)alter table ([\S]+) add "
          (String.append (if unique then "unique " else "")
             "(index|key) ([\S]+) (.+)"))
       (String.append "create "
          (String.append (if unique then "unique " else "")
             "index ${3}_${1} on $1 $4")).

(** A keyword as a statement may spell it: runes that [(?i)] folds to the
    letters of [kw]. *)
Definition spelled (kw : string) (k : gostring) : Prop :=
  map regexp.fold_lower k = runes kw.

(** A non-empty run of whitespace. *)
Definition blank (b : gostring) : bool :=
  (negb (Nat.eqb (List.length b) 0) && forallb is_space b)%bool.

Definition no_newline (s : gostring) : bool :=
  forallb (fun x => negb (x =? 10)%Z) s.

(** The expression of [addIndexRule], piece by piece. *)
Definition add_index_re (unique : bool) : list regexp.regex :=
  (regexp.keyword "alter" ++ regexp.spaces 1 :: regexp.keyword "table"
   ++ regexp.spaces 1
   :: regexp.Capture 1 (regexp.Repeat regexp.nonspace_class 1 true)
   :: regexp.spaces 1 :: regexp.keyword "add"
   ++ (if unique then regexp.spaces 1 :: regexp.keyword "unique" else [])
   ++ regexp.spaces 1
   :: regexp.Capture 2
        (regexp.Alt (regexp.cat_of (regexp.keyword "index"))
                    (regexp.cat_of (regexp.keyword "key")))
   :: regexp.spaces 1
   :: regexp.Capture 3 (regexp.Repeat regexp.nonspace_class 1 true)
   :: regexp.spaces 1
   :: [regexp.Capture 4 (regexp.Repeat (regexp.dot true) 1 true)])%list.

(** The classes of the runes a match must start with: the literals and
    classes at the head of the expression, a word boundary in front of them
    passed over. *)
Fixpoint lead (re : regexp.regex) : list regexp.cclass :=
  match re with
  | regexp.Char c => [c]%list
  | regexp.Repeat c (S _) _ => [c]%list
  | regexp.Cat (regexp.Char c) r2 => (c :: lead r2)%list
  | regexp.Cat regexp.WordBoundary r2 => lead r2
  | regexp.Cat r1 _ => lead r1
  | _ => []%list
  end.

Fixpoint prefix_ok (cl : list regexp.cclass) (s : gostring) : bool :=
  match cl, s with
  | [], _ => true
  | c :: cl', x :: s' => regexp.class_match c x && prefix_ok cl' s'
  | _ :: _, [] => false
  end.

(** The statement starts, after optional whitespace, with the keyword [kw]
    followed by whitespace. *)
Definition headed (kw : string) (s : gostring) : bool :=
  match regexp.kw_prefix (runes kw) (regexp.skip_spaces s) with
  | Some s1 => regexp.spaced s1
  | None => false
  end.

(** The letter [a] is nowhere in [kw] followed by the letter [b]. *)
Fixpoint no_pair (a b : rune) (kw : gostring) : bool :=
  match kw with
  | x :: t =>
      (negb ((x =? a)%Z
             && match t with y :: _ => (y =? b)%Z | [] => false end)
       && no_pair a b t)%bool
  | [] => true
  end.

Definition rlikeRule : regexpMap := rmap "(?i) rlike " " like ".

Definition createIndexRule : regexpMap :=
  rmap "(?i)create index([\s\S]+)[(][\s]*[0-9]+[\s]*[)]([\s\S]+)"
       "create index ${1}${2}".

(** The rule keeps the first keyword of a statement in place. *)
Definition keeps (kw : string) (rule : regexpMap) : Prop :=
  forall s, headed kw s = true -> headed kw (process rule s) = true.

(** The comment that suppresses a statement, as the skip rule reads it: the
    word in any letter case, any non-empty whitespace on either side of it. *)
Definition skip_comment (mk : gostring) : Prop :=
  exists b1 K b2,
    mk = (runes "/*" ++ b1 ++ K ++ b2 ++ runes "*/")%list
    /\ blank b1 = true /\ spelled "sqlite3-skip" K /\ blank b2 = true.

(** A pattern character that is not an upper-case letter. *)
Definition plain (a : ascii) : bool :=
  (negb (is_upper (rune_of_ascii a)) && (rune_of_ascii a <? 128)%Z)%bool.

(** The first rule of [insertConversions]. *)
Definition insertIgnoreRule : regexpMap :=
  rmap "(?i)insert ignore" "insert or ignore".

(** No assertion about the text around a match: no [^], [$] or [\b]. *)
Fixpoint nolook (re : regexp.regex) : bool :=
  match re with
  | regexp.Cat r1 r2 | regexp.Alt r1 r2 => nolook r1 && nolook r2
  | regexp.Capture _ r1 => nolook r1
  | regexp.BeginText | regexp.EndText | regexp.WordBoundary => false
  | _ => true
  end.

(** * Properties *)

Local Open Scope nat_scope.
Local Open Scope list_scope.

(** ** Lists *)

Lemma last_rune_app (pv : option rune) (u v : gostring) :
  regexp.last_rune pv (u ++ v) = regexp.last_rune (regexp.last_rune pv u) v.
Proof. unfold regexp.last_rune. apply fold_left_app. Qed.

Lemma last_rune_cons (pv : option rune) (x : rune) (u : gostring) :
  regexp.last_rune pv (x :: u) = regexp.last_rune (Some x) u.
Proof. reflexivity. Qed.

Lemma last_rune_none (u : gostring) : regexp.last_rune None u = None -> u = [].
Proof.
  destruct u as [|x u]; [reflexivity|]. rewrite last_rune_cons.
  intros H. exfalso. revert x H.
  induction u as [|y u IH]; intros x H; [discriminate|].
  rewrite last_rune_cons in H. eapply IH; eauto.
Qed.

Module Import regexp_facts.
Import regexp.

(** ** The search finds what [lang] allows, and only that *)

Section Search.

Variable c : cclass.

Lemma rep_greedy_sound : forall rs min p pv cs k l,
  rep_greedy c min p pv rs cs k = Some l ->
  exists u rs', rs = u ++ rs' /\ forallb (class_match c) u = true
    /\ min <= List.length u
    /\ k (p + List.length u) (last_rune pv u) rs' cs = Some l.
Proof.
  induction rs as [|x rs IH]; intros min p pv cs k l H; simpl in H.
  - destruct min; [|discriminate].
    exists [], []. simpl. rewrite Nat.add_0_r. auto.
  - destruct (class_match c x) eqn:Hx.
    + destruct (rep_greedy c (Nat.pred min) (S p) (Some x) rs cs k) eqn:Hr.
      * inversion H; subst. apply IH in Hr.
        destruct Hr as (u & rs' & -> & Hu & Hm & Hk).
        exists (x :: u), rs'. simpl. rewrite Hx, Hu.
        replace (p + S (List.length u)) with (S p + List.length u) by lia.
        repeat split; auto. lia.
      * destruct min; [|discriminate].
        exists [], (x :: rs). simpl. rewrite Nat.add_0_r. auto.
    + destruct min; [|discriminate].
      exists [], (x :: rs). simpl. rewrite Nat.add_0_r. auto.
Qed.

Lemma rep_lazy_sound : forall rs min p pv cs k l,
  rep_lazy c min p pv rs cs k = Some l ->
  exists u rs', rs = u ++ rs' /\ forallb (class_match c) u = true
    /\ min <= List.length u
    /\ k (p + List.length u) (last_rune pv u) rs' cs = Some l.
Proof.
  induction rs as [|x rs IH]; intros min p pv cs k l H; simpl in H.
  - destruct min; [|discriminate].
    destruct (k p pv [] cs) eqn:Hk; [|discriminate]. inversion H; subst.
    exists [], []. simpl. rewrite Nat.add_0_r. auto.
  - assert (Hmore : (if class_match c x
                     then rep_lazy c (Nat.pred min) (S p) (Some x) rs cs k
                     else None) = Some l ->
            exists u rs', x :: rs = u ++ rs' /\ forallb (class_match c) u = true
              /\ min <= List.length u
              /\ k (p + List.length u) (last_rune pv u) rs' cs = Some l).
    { destruct (class_match c x) eqn:Hx; [|discriminate]. intros Hr.
      apply IH in Hr. destruct Hr as (u & rs' & -> & Hu & Hm & Hk).
      exists (x :: u), rs'. simpl. rewrite Hx, Hu.
      replace (p + S (List.length u)) with (S p + List.length u) by lia.
      repeat split; auto. lia. }
    destruct min; [|auto].
    destruct (k p pv (x :: rs) cs) eqn:Hk; [|auto]. inversion H; subst.
    exists [], (x :: rs). simpl. rewrite Nat.add_0_r. auto.
Qed.

Lemma rep_greedy_complete : forall u min p pv rs' cs k,
  forallb (class_match c) u = true -> min <= List.length u ->
  k (p + List.length u) (last_rune pv u) rs' cs <> None ->
  rep_greedy c min p pv (u ++ rs') cs k <> None.
Proof.
  induction u as [|x u IH]; intros min p pv rs' cs k Hu Hm Hk.
  - simpl in *. rewrite Nat.add_0_r in Hk.
    assert (min = 0) by lia. subst.
    destruct rs' as [|y rs']; simpl; auto.
    destruct (class_match c y); auto.
    destruct (rep_greedy c 0 (S p) (Some y) rs' cs k); auto. discriminate.
  - simpl in Hu. apply andb_prop in Hu. destruct Hu as [Hx Hu].
    simpl. rewrite Hx.
    specialize (IH (Nat.pred min) (S p) (Some x) rs' cs k Hu).
    simpl in Hm, Hk.
    replace (p + S (List.length u)) with (S p + List.length u) in Hk by lia.
    destruct (rep_greedy c (Nat.pred min) (S p) (Some x) (u ++ rs') cs k);
      [discriminate|].
    exfalso. apply IH; auto. lia.
Qed.

Lemma rep_lazy_complete : forall u min p pv rs' cs k,
  forallb (class_match c) u = true -> min <= List.length u ->
  k (p + List.length u) (last_rune pv u) rs' cs <> None ->
  rep_lazy c min p pv (u ++ rs') cs k <> None.
Proof.
  induction u as [|x u IH]; intros min p pv rs' cs k Hu Hm Hk.
  - simpl in *. rewrite Nat.add_0_r in Hk.
    assert (min = 0) by lia. subst.
    destruct rs' as [|y rs']; simpl;
      destruct (k p pv _ cs); auto; discriminate.
  - simpl in Hu. apply andb_prop in Hu. destruct Hu as [Hx Hu].
    simpl. rewrite Hx.
    specialize (IH (Nat.pred min) (S p) (Some x) rs' cs k Hu).
    simpl in Hm, Hk.
    replace (p + S (List.length u)) with (S p + List.length u) in Hk by lia.
    assert (Hr : rep_lazy c (Nat.pred min) (S p) (Some x) (u ++ rs') cs k <> None)
      by (apply IH; auto; lia).
    destruct min; auto.
    destruct (k p pv (x :: u ++ rs') cs); auto. discriminate.
Qed.

(** A greedy repetition whose longest run is followed by a successful rest
    of the match stops there. *)
Lemma rep_greedy_max : forall u min p pv rs' cs k l,
  forallb (class_match c) u = true -> min <= List.length u ->
  k (p + List.length u) (last_rune pv u) rs' cs = Some l ->
  match rs' with y :: _ => class_match c y = false | [] => True end ->
  rep_greedy c min p pv (u ++ rs') cs k = Some l.
Proof.
  induction u as [|x u IH]; intros min p pv rs' cs k l Hu Hm Hk Hend.
  - simpl in *. rewrite Nat.add_0_r in Hk.
    assert (min = 0) by lia. subst.
    destruct rs' as [|y rs']; simpl; auto. rewrite Hend. auto.
  - simpl in Hu. apply andb_prop in Hu. destruct Hu as [Hx Hu].
    simpl. rewrite Hx. simpl in Hm, Hk.
    replace (p + S (List.length u)) with (S p + List.length u) in Hk by lia.
    rewrite (IH (Nat.pred min) (S p) (Some x) rs' cs k l); auto. lia.
Qed.

End Search.

Lemma length_set_nth (A : Type) (n : nat) (v : A) (l : list A) :
  List.length (set_nth n v l) = List.length l.
Proof.
  revert n; induction l as [|x l IH]; intros [|n]; simpl; auto.
Qed.

Lemma m_sound : forall re p pv rs cs k l,
  m re p pv rs cs k = Some l ->
  exists u rs' cs', rs = u ++ rs' /\ lang re pv u rs'
    /\ (nocap re = true -> cs' = cs)
    /\ List.length cs' = List.length cs
    /\ k (p + List.length u) (last_rune pv u) rs' cs' = Some l.
Proof.
  induction re as [|c|c min g|r1 IH1 r2 IH2|r1 IH1 r2 IH2|n r1 IH1| | |];
    intros p pv rs cs k l H; simpl in H.
  - exists [], rs, cs. simpl. rewrite Nat.add_0_r. auto.
  - destruct rs as [|x rs]; [discriminate|].
    destruct (class_match c x) eqn:Hx; [|discriminate].
    exists [x], rs, cs. simpl. rewrite Nat.add_1_r. eauto 7.
  - assert (Hs : exists u rs', rs = u ++ rs' /\ forallb (class_match c) u = true
              /\ min <= List.length u
              /\ k (p + List.length u) (last_rune pv u) rs' cs = Some l).
    { destruct g; [eapply rep_greedy_sound|eapply rep_lazy_sound]; eauto. }
    destruct Hs as (u & rs' & -> & Hu & Hm & Hk).
    exists u, rs', cs. simpl. auto 7.
  - apply IH1 in H. destruct H as (u1 & rs1 & cs1 & -> & L1 & C1 & N1 & H).
    apply IH2 in H. destruct H as (u2 & rs2 & cs2 & -> & L2 & C2 & N2 & H).
    exists (u1 ++ u2), rs2, cs2. rewrite <- app_assoc. split; [reflexivity|].
    split; [simpl; eauto|].
    split; [|split; [congruence|]].
    + simpl. intros Hn. apply andb_prop in Hn. destruct Hn as [M1 M2].
      rewrite C2, C1; auto.
    + rewrite last_rune_app, length_app, Nat.add_assoc. exact H.
  - destruct (m r1 p pv rs cs k) eqn:H1.
    + inversion H; subst. apply IH1 in H1.
      destruct H1 as (u & rs' & cs' & -> & L & C & N & Hk).
      exists u, rs', cs'. simpl. repeat split; auto.
      intros Hn. apply andb_prop in Hn. destruct Hn; auto.
    + apply IH2 in H. destruct H as (u & rs' & cs' & -> & L & C & N & Hk).
      exists u, rs', cs'. simpl. repeat split; auto.
      intros Hn. apply andb_prop in Hn. destruct Hn; auto.
  - apply IH1 in H. destruct H as (u & rs' & cs' & -> & L & C & N & Hk).
    exists u, rs', (set_nth n (Some (p, p + List.length u)) cs').
    simpl. repeat split; auto; [discriminate|].
    rewrite length_set_nth. exact N.
  - destruct pv; [discriminate|].
    exists [], rs, cs. simpl. rewrite Nat.add_0_r. auto 7.
  - destruct rs; [|discriminate].
    exists [], [], cs. simpl. rewrite Nat.add_0_r. auto 7.
  - destruct (xorb (word_before pv) (word_after rs)) eqn:Hb; [|discriminate].
    exists [], rs, cs. simpl. rewrite Nat.add_0_r. auto 7.
Qed.

Lemma m_complete : forall re p pv u rs' cs k,
  lang re pv u rs' ->
  (forall cs', k (p + List.length u) (last_rune pv u) rs' cs' <> None) ->
  m re p pv (u ++ rs') cs k <> None.
Proof.
  induction re as [|c|c min g|r1 IH1 r2 IH2|r1 IH1 r2 IH2|n r1 IH1| | |];
    intros p pv u rs' cs k L Hk; simpl in L.
  - subst. simpl in *. rewrite Nat.add_0_r in Hk. auto.
  - destruct L as (x & -> & Hx). simpl. rewrite Hx.
    specialize (Hk cs). simpl in Hk. rewrite Nat.add_1_r in Hk. auto.
  - destruct L as [Hu Hm]. simpl.
    destruct g; [apply rep_greedy_complete|apply rep_lazy_complete]; auto.
  - destruct L as (u1 & u2 & -> & L1 & L2). simpl. rewrite <- app_assoc.
    apply IH1; auto. intros cs1. apply IH2; auto.
    intros cs2. specialize (Hk cs2).
    rewrite last_rune_app, length_app, Nat.add_assoc in Hk. exact Hk.
  - simpl. destruct L as [L|L].
    + specialize (IH1 p pv u rs' cs k L Hk).
      destruct (m r1 p pv (u ++ rs') cs k); [discriminate|contradiction].
    + destruct (m r1 p pv (u ++ rs') cs k); [discriminate|].
      apply IH2; auto.
  - simpl. apply IH1; auto.
  - destruct L as [-> ->]. simpl in *. rewrite Nat.add_0_r in Hk. auto.
  - destruct L as [-> ->]. simpl in *. rewrite Nat.add_0_r in Hk. auto.
  - destruct L as [-> Hb]. simpl in *. rewrite Hb, Nat.add_0_r in *. auto.
Qed.

(** ** Leftmost search *)

Lemma search_sound : forall re n rs p pv l,
  search re n p pv rs = Some l ->
  exists pre rs1, rs = pre ++ rs1
    /\ m re (p + List.length pre) (last_rune pv pre) rs1
         (repeat None (S n)) (accept (p + List.length pre)) = Some l.
Proof.
  intros re n rs. induction rs as [|x rs IH]; intros p pv l H; simpl in H.
  - destruct (m re p pv [] _ (accept p)) eqn:Hm; [|discriminate].
    inversion H; subst. exists [], []. simpl. rewrite Nat.add_0_r. auto.
  - destruct (m re p pv (x :: rs) _ (accept p)) eqn:Hm.
    + inversion H; subst. exists [], (x :: rs). simpl. rewrite Nat.add_0_r. auto.
    + apply IH in H. destruct H as (pre & rs1 & -> & H).
      exists (x :: pre), rs1. simpl.
      replace (p + S (List.length pre)) with (S p + List.length pre) by lia.
      auto.
Qed.

Lemma search_complete : forall re n pre rs1 p pv,
  m re (p + List.length pre) (last_rune pv pre) rs1
    (repeat None (S n)) (accept (p + List.length pre)) <> None ->
  search re n p pv (pre ++ rs1) <> None.
Proof.
  intros re n pre. induction pre as [|x pre IH]; intros rs1 p pv H.
  - simpl in H. rewrite Nat.add_0_r in H. simpl app.
    destruct rs1; simpl;
      match goal with |- context [m ?a ?b ?c ?d ?e ?f] =>
        destruct (m a b c d e f) end; auto; discriminate.
  - simpl.
    destruct (m re p pv (x :: pre ++ rs1) _ (accept p)); [discriminate|].
    apply IH. simpl in H.
    replace (p + S (List.length pre)) with (S p + List.length pre) in H by lia.
    exact H.
Qed.

(** Where the search cannot start, it moves on. *)
Lemma search_skip : forall re n pre rs1 p pv,
  (forall a x b, pre = a ++ x :: b ->
     m re (p + List.length a) (last_rune pv a) (x :: b ++ rs1)
       (repeat None (S n)) (accept (p + List.length a)) = None) ->
  search re n p pv (pre ++ rs1)
  = search re n (p + List.length pre) (last_rune pv pre) rs1.
Proof.
  intros re n pre. induction pre as [|x pre IH]; intros rs1 p pv H.
  - simpl. rewrite Nat.add_0_r. reflexivity.
  - simpl app. cbn [search].
    pose proof (H [] x pre eq_refl) as H0.
    cbn [List.length last_rune fold_left] in H0.
    rewrite Nat.add_0_r in H0. rewrite H0.
    rewrite IH.
    + cbn [List.length]. rewrite last_rune_cons. f_equal. lia.
    + intros a y b ->. specialize (H (x :: a) y b eq_refl).
      cbn [List.length] in H. rewrite last_rune_cons in H.
      replace (p + S (List.length a)) with (S p + List.length a) in H by lia.
      exact H.
Qed.

(** A match lies inside the text that was searched. *)
Lemma search_bounds : forall re n rs p pv l,
  search re n p pv rs = Some l ->
  exists a0 a1 tl, l = Some (a0, a1) :: tl /\ List.length tl = n
    /\ p <= a0 /\ a0 <= a1 /\ a1 <= p + List.length rs.
Proof.
  intros re n rs p pv l H.
  apply search_sound in H. destruct H as (pre & rs1 & -> & H).
  apply m_sound in H. destruct H as (u & rs' & cs' & -> & _ & _ & N & H).
  unfold accept in H. inversion H; subst; clear H.
  simpl in N. rewrite repeat_length in N.
  destruct cs' as [|c0 cs']; [discriminate|]. simpl.
  exists (p + List.length pre), (p + List.length pre + List.length u), cs'.
  rewrite !length_app. simpl in N. repeat split; auto; lia.
Qed.

(** [MatchString] decides whether some piece of the text is in the language
    of the expression. *)
Lemma MatchString_true (re : Regexp) (s : gostring) :
  MatchString re s = true <->
  exists pre u post, s = pre ++ u ++ post
    /\ lang (prog re) (last_rune None pre) u post.
Proof.
  unfold MatchString, doExecute. simpl. split.
  - destruct (search (prog re) (numSubexp re) 0 None s) eqn:H; [|discriminate].
    intros _. apply search_sound in H. destruct H as (pre & rs1 & -> & H).
    apply m_sound in H. destruct H as (u & rs' & cs' & -> & L & _).
    eauto.
  - intros (pre & u & post & -> & L).
    destruct (search (prog re) (numSubexp re) 0 None (pre ++ u ++ post)) eqn:H;
      [reflexivity|].
    exfalso. revert H. apply search_complete.
    apply m_complete; auto. intros cs'. discriminate.
Qed.

(** ** The replacement loop *)

Lemma skipn_length_nil (A : Type) (l : list A) : skipn (List.length l) l = [].
Proof. apply skipn_all. Qed.

Lemma doExecute_bounds (re : Regexp) (src : gostring) (pos : nat) (l : loc) :
  pos <= List.length src ->
  doExecute re src pos = Some l ->
  exists a0 a1 tl, l = Some (a0, a1) :: tl
    /\ pos <= a0 /\ a0 <= a1 /\ a1 <= List.length src.
Proof.
  unfold doExecute. intros Hp H. apply search_bounds in H.
  destruct H as (a0 & a1 & tl & -> & _ & H0 & H1 & H2).
  rewrite length_skipn in H2. exists a0, a1, tl. repeat split; auto. lia.
Qed.

(** The loop always ends: [replaceAll] never runs out of turns. *)
Lemma replaceAll_total : forall fuel re src repl lastMatchEnd searchPos buf,
  List.length src + 2 <= fuel + searchPos ->
  searchPos <= List.length src + 1 ->
  exists out, replaceAll fuel re src repl lastMatchEnd searchPos buf = Some out.
Proof.
  induction fuel as [|fuel IH]; intros re src repl lme sp buf Hf Hs.
  - exfalso. lia.
  - simpl. destruct (sp <=? List.length src) eqn:Hsp; [|eauto].
    apply Nat.leb_le in Hsp.
    destruct (doExecute re src sp) as [l|] eqn:Hd; [|eauto].
    destruct (doExecute_bounds _ _ _ _ Hsp Hd) as (a0 & a1 & tl & -> & B0 & B1 & B2).
    destruct (sp <? List.length src) eqn:Hw;
      [apply Nat.ltb_lt in Hw|apply Nat.ltb_ge in Hw];
      repeat match goal with
             | |- context [?a <? ?b] =>
                 let E := fresh in
                 destruct (a <? b) eqn:E;
                 [apply Nat.ltb_lt in E|apply Nat.ltb_ge in E]
             end; apply IH; lia.
Qed.

Lemma ReplaceAllString_eq (re : Regexp) (src : gostring) (repl : string) :
  replaceAll (List.length src + 2) re src (expand 0 (runes repl) src) 0 0 []
  = Some (ReplaceAllString re src repl).
Proof.
  unfold ReplaceAllString.
  destruct (replaceAll_total (List.length src + 2) re src
              (expand 0 (runes repl) src) 0 0 (@nil rune)) as [out ->];
    [lia|lia|reflexivity].
Qed.

(** More turns than needed change nothing. *)
Lemma replaceAll_more : forall fuel fuel' re src repl lastMatchEnd searchPos buf out,
  replaceAll fuel re src repl lastMatchEnd searchPos buf = Some out ->
  fuel <= fuel' ->
  replaceAll fuel' re src repl lastMatchEnd searchPos buf = Some out.
Proof.
  induction fuel as [|fuel IH]; intros fuel' re src repl lme sp buf out H Hf;
    [discriminate|].
  destruct fuel' as [|fuel']; [lia|]. simpl in *.
  destruct (sp <=? List.length src); auto.
  destruct (doExecute re src sp) as [[|[[a0 a1]|] tl]|]; auto.
  apply IH; auto. lia.
Qed.

(** A text in which the expression matches nowhere is returned as it is. *)
Lemma ReplaceAllString_no_match (re : Regexp) (src : gostring) (repl : string) :
  MatchString re src = false -> ReplaceAllString re src repl = src.
Proof.
  unfold MatchString, ReplaceAllString. intros H.
  rewrite Nat.add_comm. simpl.
  destruct (doExecute re src 0); [discriminate|reflexivity].
Qed.

End regexp_facts.

(** ** The rule tables are well formed *)

(** Every pattern of the file compiles: no rule and no classifier holds the
    expression that stands for a panic of [MustCompile]. *)
Lemma compiles :
  forallb (fun rule => negb (regexp.is_never (r rule)))
    (createTableConversions ++ insertConversions ++ generalConversions) = true
  /\ forallb (fun re => negb (regexp.is_never re))
       [identifyCreateTableStatement; identifyCreateIndexStatement;
        identifyDropIndexStatement; identifyAlterTableStatement;
        identifyInsertStatement] = true.
Proof. split; vm_compute; reflexivity. Qed.

(** What [regexpSpaces] makes of a pattern. *)
Lemma regexpSpaces_example :
  regexpSpaces "(?i)^[\s]*create( unique|) index"
  = "(?i)^[\s]*create([\s]+unique|)[\s]+index".
Proof. reflexivity. Qed.

(** The examples that the documentation of Go's [regexp] gives for
    [ReplaceAllString], run on the model. *)
Lemma ReplaceAllString_documented :
  let re := regexp.MustCompile "a(x*)b" in
  regexp.ReplaceAllString re (runes "-ab-axxb-") "T" = runes "-T-T-"
  /\ regexp.ReplaceAllString re (runes "-ab-axxb-") "$1" = runes "--xx-"
  /\ regexp.ReplaceAllString re (runes "-ab-axxb-") "$1W" = runes "---"
  /\ regexp.ReplaceAllString re (runes "-ab-axxb-") "${1}W" = runes "-W-xxW-".
Proof. repeat split; vm_compute; reflexivity. Qed.

(** ** The dispatcher *)

(** C1.  [ToSqlite3Dialect] decides in this order: a CREATE TABLE statement
    gets the create/alter rules; otherwise an ALTER TABLE statement gets the
    same rules; otherwise the general rules are applied, and their output
    gets the insert rules if it is an INSERT or REPLACE statement and is
    returned as it is if not. *)
Theorem C1_dispatch_order (statement : gostring) :
  ToSqlite3Dialect statement =
    if IsCreateTable statement
    then applyConversions statement createTableConversions
    else if IsAlterTable statement
    then applyConversions statement createTableConversions
    else
      let intermediate := applyConversions statement generalConversions in
      if IsInsert intermediate
      then applyConversions intermediate insertConversions
      else intermediate.
Proof.
  unfold ToSqlite3Dialect, ToSqlite3CreateTable, ToSqlite3Insert.
  destruct (IsCreateTable statement); [reflexivity|].
  destruct (IsAlterTable statement); reflexivity.
Qed.

(** C3.  A statement that [IsAlterTable] accepts and [IsCreateTable] does not
    is translated by the very function the CREATE TABLE branch calls,
    [ToSqlite3CreateTable], that is by the create/alter rule list. *)
Theorem C3_alter_table_uses_create_rules (statement : gostring) :
  IsAlterTable statement = true ->
  IsCreateTable statement = false ->
  ToSqlite3Dialect statement = ToSqlite3CreateTable statement
  /\ ToSqlite3CreateTable statement
     = applyConversions statement createTableConversions.
Proof.
  intros Ha Hc. unfold ToSqlite3Dialect. rewrite Hc, Ha. split; reflexivity.
Qed.

Lemma C3_alter_table_uses_create_rules_witness :
  IsAlterTable (runes "ALTER TABLE t ADD INDEX idx_name (name)") = true
  /\ IsCreateTable (runes "ALTER TABLE t ADD INDEX idx_name (name)") = false
  /\ ToSqlite3Dialect (runes "ALTER TABLE t ADD INDEX idx_name (name)")
     = ToSqlite3CreateTable (runes "ALTER TABLE t ADD INDEX idx_name (name)").
Proof.
  split; [vm_compute; reflexivity|].
  split; [vm_compute; reflexivity|].
  apply (C3_alter_table_uses_create_rules
           (runes "ALTER TABLE t ADD INDEX idx_name (name)"));
    vm_compute; reflexivity.
Defined.

(** ** Worked statements *)

(** C7, as the specification words it: the result is not the statement in
    upper-case keywords. *)
Lemma C7_add_index_counterexample :
  ToSqlite3Dialect (runes "ALTER TABLE t ADD INDEX idx_name (name)")
  <> runes "CREATE INDEX idx_name_t ON t (name)".
Proof. vm_compute. discriminate. Qed.

(** C7, amended.  ALTER TABLE t ADD INDEX idx_name (name) becomes a
    standalone statement that creates the index idx_name_t on t (name); the
    keywords come from the replacement template, which writes them in lower
    case. *)
Theorem C7_add_index :
  ToSqlite3Dialect (runes "ALTER TABLE t ADD INDEX idx_name (name)")
  = runes "create index idx_name_t on t (name)".
Proof. vm_compute. reflexivity. Qed.

(** C8, as the specification words it: the result is not the statement in
    upper-case keywords. *)
Lemma C8_insert_ignore_counterexample :
  ToSqlite3Dialect (runes "INSERT IGNORE INTO t (a) VALUES (1)")
  <> runes "INSERT OR IGNORE INTO t (a) VALUES (1)".
Proof. vm_compute. discriminate. Qed.

(** C8, amended.  INSERT IGNORE INTO t (a) VALUES (1) goes through the
    general rules, which leave it alone, and then through the insert rules:
    the prefix is replaced by the template's lower-case [insert or ignore],
    and the rest of the statement is kept as written. *)
Theorem C8_insert_ignore :
  applyConversions (runes "INSERT IGNORE INTO t (a) VALUES (1)") generalConversions
  = runes "INSERT IGNORE INTO t (a) VALUES (1)"
  /\ IsInsert (runes "INSERT IGNORE INTO t (a) VALUES (1)") = true
  /\ ToSqlite3Dialect (runes "INSERT IGNORE INTO t (a) VALUES (1)")
     = runes "insert or ignore INTO t (a) VALUES (1)".
Proof. repeat split; vm_compute; reflexivity. Qed.

(** C10.  On the empty statement the five classifiers answer no, the
    translation is the empty statement, and no rule of the three lists
    matches. *)
Theorem C10_empty_statement :
  IsInsert [] = false /\ IsCreateTable [] = false /\ IsCreateIndex [] = false
  /\ IsDropIndex [] = false /\ IsAlterTable [] = false
  /\ ToSqlite3Dialect [] = []
  /\ Forall (fun rule => regexp.MatchString (r rule) [] = false)
       (createTableConversions ++ insertConversions ++ generalConversions).
Proof.
  repeat split; try (vm_compute; reflexivity).
  repeat constructor; vm_compute; reflexivity.
Qed.

(** ** The rewrite engine *)

Lemma applyConversions_fold (conversions : list regexpMap) (statement : gostring) :
  applyConversions statement conversions
  = fold_left (fun s rule => process rule s) conversions statement.
Proof.
  revert statement; induction conversions as [|rule rules IH]; intros s;
    simpl; auto.
Qed.

Lemma applyConversions_app (l1 l2 : list regexpMap) (statement : gostring) :
  applyConversions statement (l1 ++ l2)
  = applyConversions (applyConversions statement l1) l2.
Proof.
  revert statement; induction l1 as [|rule rules IH]; intros s; simpl; auto.
Qed.




(** ** Character classes *)

Module Import class_facts.
Import regexp.

Local Open Scope Z_scope.

Ltac decide_cmp :=
  repeat (match goal with
  | |- context [Z.leb ?a ?b] =>
      first [ replace (Z.leb a b) with true by (symmetry; apply Z.leb_le; lia)
            | replace (Z.leb a b) with false by (symmetry; apply Z.leb_gt; lia)
            | destruct (Z.leb_spec a b) ]
  | |- context [Z.eqb ?a ?b] =>
      first [ replace (Z.eqb a b) with true by (symmetry; apply Z.eqb_eq; lia)
            | replace (Z.eqb a b) with false by (symmetry; apply Z.eqb_neq; lia)
            | destruct (Z.eqb_spec a b) ]
  | H : context [Z.eqb ?a ?b] |- _ => destruct (Z.eqb_spec a b)
  | H : context [Z.leb ?a ?b] |- _ => destruct (Z.leb_spec a b)
  end; cbn [andb orb negb xorb existsb app] in *).

Ltac class_tac :=
  unfold class_match, item_match, folded, orbit, perl_match, is_word, is_space,
    is_digit, is_upper, is_lower, in_range;
  cbn [cneg cfold citems existsb];
  decide_cmp; try reflexivity; try lia; try (exfalso; lia).

Lemma space_class_match (x : rune) : class_match space_class x = is_space x.
Proof. unfold space_class. class_tac. Qed.

Lemma nonspace_class_match (x : rune) :
  class_match nonspace_class x = negb (is_space x).
Proof. unfold nonspace_class. class_tac. Qed.

Lemma any_class_match (x : rune) : class_match any_class x = true.
Proof. unfold any_class. class_tac. Qed.


Lemma op_class_match (x : rune) :
  class_match op_class x = (x =? 61) || (x =? 60) || (x =? 62) || is_space x.
Proof. unfold op_class. class_tac. Qed.

(** A lower-case letter of a pattern matches the runes that fold to it. *)
Lemma lit_match (a : ascii) (x : rune) :
  is_lower (rune_of_ascii a) = true ->
  class_match (lit true a) x = (fold_lower x =? rune_of_ascii a).
Proof.
  unfold lit, fold_lower. generalize (rune_of_ascii a). intros y H.
  unfold is_lower, in_range in H. apply andb_prop in H. destruct H as [H1 H2].
  apply Z.leb_le in H1, H2. class_tac.
Qed.

Lemma fold_lower_space (x a : rune) :
  is_space x = true -> is_lower a = true -> (fold_lower x =? a) = false.
Proof.
  unfold fold_lower, is_space, is_lower, is_upper, in_range. intros Hs Ha.
  apply andb_prop in Ha. destruct Ha as [H1 H2]. apply Z.leb_le in H1, H2.
  decide_cmp; try reflexivity; try discriminate; try lia.
Qed.

End class_facts.

(** ** Statements that start with keywords *)

Module Import keyword_facts.
Import regexp.

Lemma m_cat_of_cons (r1 : regex) (rs : list regex) p pv s cs k :
  m (cat_of (r1 :: rs)) p pv s cs k
  = m r1 p pv s cs (fun p' pv' s' cs' => m (cat_of rs) p' pv' s' cs' k).
Proof. destruct rs; reflexivity. Qed.

(** The search depends on the rest of the match through its results only. *)
Lemma rep_greedy_ext (c : cclass) (k1 k2 : cont) :
  (forall p pv s cs, k1 p pv s cs = k2 p pv s cs) ->
  forall s min p pv cs,
    rep_greedy c min p pv s cs k1 = rep_greedy c min p pv s cs k2.
Proof.
  intros E. induction s as [|x s IH]; intros min p pv cs; simpl.
  - destruct min; auto.
  - rewrite IH. destruct min; rewrite ?E; reflexivity.
Qed.

Lemma rep_lazy_ext (c : cclass) (k1 k2 : cont) :
  (forall p pv s cs, k1 p pv s cs = k2 p pv s cs) ->
  forall s min p pv cs,
    rep_lazy c min p pv s cs k1 = rep_lazy c min p pv s cs k2.
Proof.
  intros E. induction s as [|x s IH]; intros min p pv cs; simpl.
  - destruct min; rewrite ?E; auto.
  - rewrite IH. destruct min; rewrite ?E; reflexivity.
Qed.

Lemma m_ext : forall re (k1 k2 : cont),
  (forall p pv s cs, k1 p pv s cs = k2 p pv s cs) ->
  forall p pv s cs, m re p pv s cs k1 = m re p pv s cs k2.
Proof.
  induction re as [|c|c min g|r1 IH1 r2 IH2|r1 IH1 r2 IH2|n r1 IH1| | |];
    intros k1 k2 E p pv s cs; simpl.
  - apply E.
  - destruct s; auto. rewrite E. reflexivity.
  - destruct g; [apply rep_greedy_ext|apply rep_lazy_ext]; auto.
  - apply IH1. intros. apply IH2. auto.
  - rewrite (IH1 k1 k2 E), (IH2 k1 k2 E). reflexivity.
  - apply IH1. intros. apply E.
  - destruct pv; auto.
  - destruct s; auto.
  - rewrite E. reflexivity.
Qed.

Lemma m_cat_of_app (l1 l2 : list regex) : forall p pv s cs k,
  m (cat_of (l1 ++ l2)) p pv s cs k
  = m (cat_of l1) p pv s cs (fun p' pv' s' cs' => m (cat_of l2) p' pv' s' cs' k).
Proof.
  induction l1 as [|r1 l1 IH]; intros p pv s cs k; [reflexivity|].
  rewrite <- app_comm_cons, !m_cat_of_cons. apply m_ext. intros. apply IH.
Qed.

(** An expression anchored at the start of the text is tried there only. *)
Lemma search_begin (re : regex) (n : nat) (s : gostring) :
  search (Cat BeginText re) n 0 None s
  = m re 0 None s (repeat None (S n)) (accept 0).
Proof.
  assert (H : forall rs p x, search (Cat BeginText re) n p (Some x) rs = None).
  { induction rs as [|y rs IH]; intros p x; simpl; auto. }
  destruct s as [|x s]; simpl.
  - destruct (m re 0 None [] _ (accept 0)); reflexivity.
  - rewrite H. destruct (m re 0 None (x :: s) _ (accept 0)); reflexivity.
Qed.

Lemma spaced_take (s : gostring) :
  spaced s = (1 <=? List.length (take_spaces s)).
Proof. destruct s as [|x s]; simpl; auto. destruct (is_space x); reflexivity. Qed.

Lemma take_skip_spaces (s : gostring) : take_spaces s ++ skip_spaces s = s.
Proof.
  induction s as [|x s IH]; simpl; auto.
  destruct (is_space x); simpl; congruence.
Qed.

(** Whitespace in front of something that cannot start with whitespace is
    taken whole. *)
Lemma rep_greedy_spaces (k : cont) (cs : loc) :
  (forall p pv x rs, is_space x = true -> k p pv (x :: rs) cs = None) ->
  forall s min p pv,
    rep_greedy space_class min p pv s cs k
    = if min <=? List.length (take_spaces s)
      then k (p + List.length (take_spaces s)) (last_rune pv (take_spaces s))
             (skip_spaces s) cs
      else None.
Proof.
  intros Hk. induction s as [|x s IH]; intros min p pv.
  - simpl. rewrite Nat.add_0_r. destruct min; reflexivity.
  - cbn [rep_greedy take_spaces skip_spaces]. rewrite space_class_match.
    destruct (is_space x) eqn:Hx.
    + rewrite IH. cbn [List.length]. rewrite last_rune_cons.
      replace (p + S (List.length (take_spaces s)))
        with (S p + List.length (take_spaces s)) by lia.
      destruct min as [|min]; cbn [Nat.pred Nat.leb].
      * rewrite Hk by exact Hx.
        destruct (k _ _ _ cs); reflexivity.
      * destruct (min <=? List.length (take_spaces s)); [|reflexivity].
        destruct (k _ _ _ cs); reflexivity.
    + cbn [List.length]. rewrite Nat.add_0_r. destruct min; reflexivity.
Qed.

Lemma m_keyword : forall (kw : list ascii) (rs : list regex) p pv s cs k,
  lower_word kw = true ->
  m (cat_of (map ci kw ++ rs)) p pv s cs k
  = match kw_prefix (map rune_of_ascii kw) s with
    | Some s' =>
        m (cat_of rs) (p + List.length kw)
          (last_rune pv (firstn (List.length kw) s)) s' cs k
    | None => None
    end.
Proof.
  induction kw as [|a kw IH]; intros rs p pv s cs k H.
  - simpl. rewrite Nat.add_0_r. reflexivity.
  - simpl in H. apply andb_prop in H. destruct H as [Ha Hkw].
    cbn [map app]. rewrite m_cat_of_cons. unfold ci at 1. cbn [m kw_prefix].
    destruct s as [|x s]; [reflexivity|].
    rewrite lit_match by exact Ha.
    destruct (fold_lower x =? rune_of_ascii a)%Z; [|reflexivity].
    rewrite IH by exact Hkw. cbn [List.length firstn]. rewrite last_rune_cons.
    replace (p + S (List.length kw)) with (S p + List.length kw) by lia.
    reflexivity.
Qed.

(** A keyword does not start with whitespace. *)
Lemma kw_prefix_space (a : ascii) (kw : list ascii) (x : rune) (s : gostring) :
  is_lower (rune_of_ascii a) = true -> is_space x = true ->
  kw_prefix (map rune_of_ascii (a :: kw)) (x :: s) = None.
Proof.
  intros Ha Hx. simpl. rewrite fold_lower_space; auto.
Qed.

(** What the search does on an expression made of keywords. *)
Lemma m_chain (k : cont) (f : gostring -> bool) :
  (forall p pv s cs, ok (k p pv s cs) = f s) ->
  forall kws first p pv s cs,
    forallb good_keyword kws = true ->
    ok (m (cat_of (chain kws first)) p pv s cs k)
    = match after_keywords kws first s with
      | Some s' => f s'
      | None => false
      end.
Proof.
  intros Hk. induction kws as [|kw kws IH]; intros first p pv s cs Hg.
  - simpl. apply Hk.
  - simpl in Hg. apply andb_prop in Hg. destruct Hg as [Hkw Hg].
    unfold good_keyword in Hkw.
    cbn [chain after_keywords]. rewrite m_cat_of_cons.
    unfold spaces at 1. cbn [m]. unfold keyword, runes.
    destruct (list_ascii_of_string kw) as [|a l] eqn:El; [discriminate|].
    pose proof Hkw as Hl. simpl in Hl. apply andb_prop in Hl.
    destruct Hl as [Ha _].
    rewrite rep_greedy_spaces.
    + rewrite m_keyword by exact Hkw.
      replace (first || spaced s)%bool
        with ((if first then 0 else 1) <=? List.length (take_spaces s)).
      * destruct (_ <=? List.length (take_spaces s)); [|reflexivity].
        destruct (kw_prefix _ (skip_spaces s)); [|reflexivity].
        apply IH. exact Hg.
      * destruct first; [reflexivity|]. symmetry. apply spaced_take.
    + intros p' pv' x rs Hx. rewrite m_keyword by exact Hkw.
      rewrite kw_prefix_space; auto.
Qed.

End keyword_facts.

(** ** The classifiers *)

Module Import classifier_facts.
Import regexp.

Lemma ok_or (A : Type) (a b : option A) :
  ok (match a with Some l => Some l | None => b end) = (ok a || ok b)%bool.
Proof. destruct a; reflexivity. Qed.

Lemma MatchString_search (re : Regexp) (s : gostring) :
  MatchString re s = ok (search (prog re) (numSubexp re) 0 None s).
Proof. reflexivity. Qed.

Lemma m_keyword_only (kw : string) p pv s cs k :
  good_keyword kw = true ->
  m (cat_of (keyword kw)) p pv s cs k
  = match kw_prefix (runes kw) s with
    | Some s' =>
        k (p + List.length (list_ascii_of_string kw))
          (last_rune pv (firstn (List.length (list_ascii_of_string kw)) s)) s' cs
    | None => None
    end.
Proof.
  unfold good_keyword, keyword, runes. intros H.
  destruct (list_ascii_of_string kw) as [|a l] eqn:E; [discriminate|].
  rewrite <- (app_nil_r (map ci (a :: l))). rewrite m_keyword by exact H.
  reflexivity.
Qed.

Lemma identifyCreateTableStatement_prog :
  prog identifyCreateTableStatement
  = Cat BeginText (cat_of (chain ["create"; "table"]%string true)).
Proof. vm_compute. reflexivity. Qed.

Lemma identifyDropIndexStatement_prog :
  prog identifyDropIndexStatement
  = Cat BeginText (cat_of (chain ["drop"; "index"]%string true)).
Proof. vm_compute. reflexivity. Qed.

Lemma identifyAlterTableStatement_prog :
  prog identifyAlterTableStatement
  = Cat BeginText (cat_of (chain ["alter"; "table"]%string true)).
Proof. vm_compute. reflexivity. Qed.

Lemma identifyInsertStatement_prog :
  prog identifyInsertStatement
  = Cat BeginText
      (cat_of [spaces 0;
               Capture 1 (Alt (cat_of (keyword "insert"))
                              (cat_of (keyword "replace")))]).
Proof. vm_compute. reflexivity. Qed.

Lemma identifyCreateIndexStatement_prog :
  prog identifyCreateIndexStatement
  = Cat BeginText
      (cat_of (chain ["create"]%string true
               ++ Capture 1 (Alt (cat_of (chain ["unique"]%string false)) Empty)
                  :: chain ["index"]%string false)).
Proof. vm_compute. reflexivity. Qed.

Lemma accept_ok (start : nat) p pv s cs : ok (accept start p pv s cs) = true.
Proof. reflexivity. Qed.

(** A statement whose expression is [^], optional whitespace and keywords
    is one that starts with the keywords. *)
Lemma chain_classifier (re : Regexp) (kws : list string) (s : gostring) :
  prog re = Cat BeginText (cat_of (chain kws true)) ->
  forallb good_keyword kws = true ->
  MatchString re s = starts_with kws s.
Proof.
  intros E Hg. rewrite MatchString_search, E, search_begin.
  rewrite (m_chain (accept 0) (fun _ => true)); auto.
Qed.

Lemma IsCreateTable_spec (s : gostring) :
  IsCreateTable s = starts_with ["create"; "table"]%string s.
Proof.
  apply chain_classifier; [apply identifyCreateTableStatement_prog|reflexivity].
Qed.

Lemma IsDropIndex_spec (s : gostring) :
  IsDropIndex s = starts_with ["drop"; "index"]%string s.
Proof.
  apply chain_classifier; [apply identifyDropIndexStatement_prog|reflexivity].
Qed.

Lemma IsAlterTable_spec (s : gostring) :
  IsAlterTable s = starts_with ["alter"; "table"]%string s.
Proof.
  apply chain_classifier; [apply identifyAlterTableStatement_prog|reflexivity].
Qed.

Lemma IsInsert_spec (s : gostring) :
  IsInsert s
  = (starts_with ["insert"]%string s || starts_with ["replace"]%string s)%bool.
Proof.
  unfold IsInsert.
  rewrite MatchString_search, identifyInsertStatement_prog, search_begin.
  rewrite m_cat_of_cons. unfold spaces at 1. cbn [m].
  rewrite rep_greedy_spaces.
  - cbn [Nat.leb cat_of m]. rewrite ok_or.
    rewrite !m_keyword_only by reflexivity.
    unfold starts_with. cbn [after_keywords orb].
    destruct (kw_prefix (runes "insert") (skip_spaces s));
      destruct (kw_prefix (runes "replace") (skip_spaces s)); reflexivity.
  - intros p pv x rs Hx. cbn [cat_of m].
    rewrite !m_keyword_only by reflexivity.
    unfold runes. cbn [list_ascii_of_string].
    rewrite !kw_prefix_space by (reflexivity || exact Hx). reflexivity.
Qed.

Lemma IsCreateIndex_spec (s : gostring) :
  IsCreateIndex s
  = (starts_with ["create"; "unique"; "index"]%string s
     || starts_with ["create"; "index"]%string s)%bool.
Proof.
  unfold IsCreateIndex.
  rewrite MatchString_search, identifyCreateIndexStatement_prog, search_begin.
  rewrite m_cat_of_app.
  rewrite (m_chain _
             (fun s' => (ok (after_keywords ["unique"; "index"]%string false s')
                         || ok (after_keywords ["index"]%string false s'))%bool));
    [|intros p pv s' cs|reflexivity].
  - unfold starts_with. cbn [after_keywords orb].
    destruct (kw_prefix (runes "create") (skip_spaces s)); reflexivity.
  - rewrite m_cat_of_cons. cbn [m]. rewrite ok_or. f_equal.
    + rewrite (m_chain _ (fun s2 => ok (after_keywords ["index"]%string false s2)));
        [|intros p2 pv2 s2 cs2|reflexivity].
      * cbn [after_keywords]. destruct (false || spaced s')%bool; [|reflexivity].
        destruct (kw_prefix (runes "unique") (skip_spaces s')); reflexivity.
      * rewrite (m_chain (accept 0) (fun _ => true)); auto.
    + rewrite (m_chain (accept 0) (fun _ => true)); auto.
Qed.

(** *** Whitespace in front of a statement *)

Lemma skip_spaces_app (ws s : gostring) :
  forallb is_space ws = true -> skip_spaces (ws ++ s) = skip_spaces s.
Proof.
  induction ws as [|x ws IH]; simpl; auto.
  intros H. apply andb_prop in H. destruct H as [Hx H]. rewrite Hx. auto.
Qed.

Lemma starts_with_spaces (kws : list string) (ws s : gostring) :
  forallb is_space ws = true ->
  starts_with kws (ws ++ s) = starts_with kws s.
Proof.
  intros H. unfold starts_with. destruct kws as [|kw kws]; [reflexivity|].
  cbn [after_keywords orb]. rewrite skip_spaces_app by exact H. reflexivity.
Qed.

(** *** Letter case *)

Lemma to_lower_space (x y : rune) :
  to_lower x = to_lower y -> is_space x = is_space y.
Proof.
  unfold to_lower, is_space, is_upper, in_range. intros H.
  decide_cmp; try reflexivity; try lia.
Qed.

Lemma to_lower_fold (x y : rune) :
  to_lower x = to_lower y -> fold_lower x = fold_lower y.
Proof.
  unfold to_lower, fold_lower, is_upper, in_range. intros H.
  decide_cmp; try reflexivity; try lia.
Qed.

Lemma skip_spaces_case : forall s s' : gostring,
  map to_lower s = map to_lower s' ->
  map to_lower (skip_spaces s) = map to_lower (skip_spaces s').
Proof.
  induction s as [|x s IH]; intros [|y s'] H; try discriminate; auto.
  simpl in H. injection H as Hx Hs. simpl.
  rewrite (to_lower_space _ _ Hx). destruct (is_space y); auto.
  simpl. congruence.
Qed.

Lemma spaced_case (s s' : gostring) :
  map to_lower s = map to_lower s' -> spaced s = spaced s'.
Proof.
  destruct s as [|x s], s' as [|y s']; try discriminate; auto.
  simpl. intros H. injection H as Hx _. apply to_lower_space; auto.
Qed.

Lemma kw_prefix_case : forall kw (s s' : gostring),
  map to_lower s = map to_lower s' ->
  match kw_prefix kw s, kw_prefix kw s' with
  | Some t, Some t' => map to_lower t = map to_lower t'
  | None, None => True
  | _, _ => False
  end.
Proof.
  induction kw as [|a kw IH]; intros s s' H; simpl; auto.
  destruct s as [|x s], s' as [|y s']; try discriminate; auto.
  simpl in H. injection H as Hx Hs.
  rewrite (to_lower_fold _ _ Hx).
  destruct (fold_lower y =? a)%Z; [apply IH; exact Hs|exact I].
Qed.

Lemma after_keywords_case : forall kws first (s s' : gostring),
  map to_lower s = map to_lower s' ->
  ok (after_keywords kws first s) = ok (after_keywords kws first s').
Proof.
  induction kws as [|kw kws IH]; intros first s s' H; [reflexivity|].
  cbn [after_keywords]. rewrite (spaced_case _ _ H).
  destruct (first || spaced s')%bool; [|reflexivity].
  pose proof (kw_prefix_case (runes kw) _ _ (skip_spaces_case _ _ H)) as K.
  destruct (kw_prefix (runes kw) (skip_spaces s));
    destruct (kw_prefix (runes kw) (skip_spaces s')); try contradiction; auto.
Qed.

Lemma starts_with_case (kws : list string) (s s' : gostring) :
  map to_lower s = map to_lower s' -> starts_with kws s = starts_with kws s'.
Proof. apply after_keywords_case. Qed.

(** What the classifiers answer, in one place. *)
Lemma classify_spec (s : gostring) :
  classify s
  = [ (starts_with ["insert"]%string s || starts_with ["replace"]%string s)%bool;
      starts_with ["create"; "table"]%string s;
      (starts_with ["create"; "unique"; "index"]%string s
       || starts_with ["create"; "index"]%string s)%bool;
      starts_with ["drop"; "index"]%string s;
      starts_with ["alter"; "table"]%string s ].
Proof.
  unfold classify.
  rewrite IsInsert_spec, IsCreateTable_spec, IsCreateIndex_spec,
    IsDropIndex_spec, IsAlterTable_spec.
  reflexivity.
Qed.

End classifier_facts.

Module Import statement_facts.
Import regexp.

Lemma kw_prefix_cons (a : rune) (kw : gostring) (x : rune) (t : gostring) :
  kw_prefix (a :: kw) (x :: t)
  = if (fold_lower x =? a)%Z then kw_prefix kw t else None.
Proof. reflexivity. Qed.

Ltac split_options :=
  repeat match goal with
         | |- context [match kw_prefix ?k ?t with _ => _ end] =>
             is_var t; destruct (kw_prefix k t)
         | |- context [if spaced ?t then _ else _] => destruct (spaced t)
         | |- context [(false || ?b)%bool] => change (false || b)%bool with b
         end.

Ltac next_rune y t :=
  match goal with
  | |- context [skip_spaces ?g] => destruct (skip_spaces g) as [|y t]
  end.

(** No statement is of two kinds. *)
Lemma classify_exclusive (s : gostring) :
  List.length (filter id (classify s)) <= 1.
Proof.
  rewrite classify_spec. unfold starts_with. cbn [after_keywords orb].
  change (runes "insert") with [105; 110; 115; 101; 114; 116]%Z.
  change (runes "replace") with [114; 101; 112; 108; 97; 99; 101]%Z.
  change (runes "create") with [99; 114; 101; 97; 116; 101]%Z.
  change (runes "drop") with [100; 114; 111; 112]%Z.
  change (runes "alter") with [97; 108; 116; 101; 114]%Z.
  change (runes "table") with [116; 97; 98; 108; 101]%Z.
  change (runes "unique") with [117; 110; 105; 113; 117; 101]%Z.
  change (runes "index") with [105; 110; 100; 101; 120]%Z.
  destruct (skip_spaces s) as [|x t]; [cbn; lia|].
  rewrite !kw_prefix_cons.
  destruct (Z.eqb_spec (fold_lower x) 105);
    destruct (Z.eqb_spec (fold_lower x) 114);
    destruct (Z.eqb_spec (fold_lower x) 99);
    destruct (Z.eqb_spec (fold_lower x) 100);
    destruct (Z.eqb_spec (fold_lower x) 97); try lia.
  all: split_options; try (cbn; lia).
  all: next_rune y t2; try (cbn; lia).
  all: rewrite ?kw_prefix_cons.
  all: destruct (Z.eqb_spec (fold_lower y) 116);
    destruct (Z.eqb_spec (fold_lower y) 117);
    destruct (Z.eqb_spec (fold_lower y) 105); try lia.
  all: split_options; try (cbn; lia).
  all: next_rune z t3; try (cbn; lia).
  all: rewrite ?kw_prefix_cons.
  all: destruct (Z.eqb_spec (fold_lower z) 105); split_options; try (cbn; lia).
Qed.

Lemma classify_case (s s' : gostring) :
  map to_lower s' = map to_lower s -> classify s' = classify s.
Proof.
  intros H. rewrite !classify_spec.
  rewrite !(starts_with_case _ _ _ H). reflexivity.
Qed.

Lemma classify_spaces (ws s : gostring) :
  forallb is_space ws = true -> classify (ws ++ s) = classify s.
Proof.
  intros H. rewrite !classify_spec.
  rewrite !(starts_with_spaces _ _ _ H). reflexivity.
Qed.

Lemma letter_fold (x a : rune) :
  is_lower a = true -> to_lower x = a -> fold_lower x = a.
Proof.
  unfold to_lower, fold_lower, is_lower, is_upper, in_range. intros Ha H.
  apply andb_prop in Ha. destruct Ha as [H1 H2]. apply Z.leb_le in H1, H2.
  decide_cmp; try reflexivity; try lia.
Qed.

Lemma letter_not_space (x a : rune) :
  is_lower a = true -> to_lower x = a -> is_space x = false.
Proof.
  unfold to_lower, is_space, is_lower, is_upper, in_range. intros Ha H.
  apply andb_prop in Ha. destruct Ha as [H1 H2]. apply Z.leb_le in H1, H2.
  decide_cmp; try reflexivity; try lia.
Qed.

Lemma kw_prefix_app : forall (kw k r : gostring),
  forallb is_lower kw = true -> map to_lower k = kw ->
  kw_prefix kw (k ++ r) = Some r.
Proof.
  induction kw as [|a kw IH]; intros [|x k] r Hl H; try discriminate; auto.
  simpl in Hl. apply andb_prop in Hl. destruct Hl as [Ha Hl].
  simpl in H. injection H as Hx Hk.
  simpl. rewrite (letter_fold _ _ Ha Hx), Z.eqb_refl. auto.
Qed.

Lemma skip_spaces_stop (w : gostring) (x : rune) (rest : gostring) :
  forallb is_space w = true -> is_space x = false ->
  skip_spaces (w ++ x :: rest) = x :: rest.
Proof.
  intros Hw Hx. rewrite skip_spaces_app by exact Hw. simpl. rewrite Hx.
  reflexivity.
Qed.

Lemma lower_word_runes (l : list ascii) :
  lower_word l = true -> forallb is_lower (map rune_of_ascii l) = true.
Proof.
  unfold lower_word. induction l as [|a l IH]; simpl; auto.
  intros H. apply andb_prop in H. destruct H as [Ha H]. rewrite Ha. auto.
Qed.

(** A keyword written in any letter case, after whitespace, is found. *)
Lemma after_keywords_here (kw : string) (kws : list string) (first : bool)
      (w k rest : gostring) :
  good_keyword kw = true ->
  forallb is_space w = true -> (first = true \/ w <> []) ->
  map to_lower k = runes kw ->
  after_keywords (kw :: kws) first (w ++ k ++ rest)
  = after_keywords kws false rest.
Proof.
  intros Hg Hw Hf Hk. cbn [after_keywords].
  assert (Hl : forallb is_lower (runes kw) = true).
  { unfold good_keyword in Hg. unfold runes.
    destruct (list_ascii_of_string kw); [discriminate|].
    apply lower_word_runes. exact Hg. }
  assert (Hn : exists x k', k = x :: k' /\ is_space x = false).
  { unfold good_keyword in Hg. unfold runes in *.
    destruct (list_ascii_of_string kw) as [|a l]; [discriminate|].
    destruct k as [|x k']; [discriminate|]. exists x, k'. split; auto.
    simpl in Hk. injection Hk as Hx _. simpl in Hl.
    apply andb_prop in Hl. destruct Hl as [Ha _].
    eapply letter_not_space; eauto. }
  destruct Hn as (x & k' & -> & Hx).
  replace (first || spaced (w ++ (x :: k') ++ rest))%bool with true.
  - rewrite <- app_comm_cons, skip_spaces_stop by assumption.
    rewrite app_comm_cons, kw_prefix_app by assumption. reflexivity.
  - destruct Hf as [->|Hf]; [reflexivity|].
    destruct w as [|y w]; [contradiction|]. simpl in Hw.
    apply andb_prop in Hw. destruct Hw as [Hy _]. simpl. rewrite Hy.
    symmetry. apply orb_true_r.
Qed.

End statement_facts.

(** C2.  A statement made of whitespace (possibly none), CREATE, whitespace
    (at least one rune; one space in the specification), TABLE and anything, the two
    words in any letter case, is a CREATE TABLE statement for
    [IsCreateTable], and its translation is the create/alter rule list
    folded over it once, from the first rule to the last. *)
Theorem C2_create_table (statement ws create sep table rest : gostring) :
  statement = ws ++ create ++ sep ++ table ++ rest ->
  forallb is_space ws = true ->
  map to_lower create = runes "create" ->
  forallb is_space sep = true -> sep <> [] ->
  map to_lower table = runes "table" ->
  IsCreateTable statement = true
  /\ ToSqlite3Dialect statement
     = fold_left (fun s rule => process rule s) createTableConversions statement.
Proof.
  intros -> Hws Hc Hsep Hne Ht.
  assert (H : IsCreateTable (ws ++ create ++ sep ++ table ++ rest) = true).
  { rewrite IsCreateTable_spec. unfold regexp.starts_with.
    rewrite after_keywords_here; auto.
    rewrite after_keywords_here; auto. }
  split; [exact H|].
  unfold ToSqlite3Dialect. rewrite H. apply applyConversions_fold.
Qed.

Lemma C2_create_table_witness :
  IsCreateTable (runes "  Create TABLE t (id int)") = true
  /\ ToSqlite3Dialect (runes "  Create TABLE t (id int)")
     = fold_left (fun s rule => process rule s) createTableConversions
         (runes "  Create TABLE t (id int)").
Proof.
  apply (C2_create_table (runes "  Create TABLE t (id int)") (runes "  ")
           (runes "Create") (runes " ") (runes "TABLE") (runes " t (id int)"));
    try reflexivity.
  discriminate.
Defined.

(** C5.  Of the five classifiers at most one accepts a statement.  Their
    answers do not change when the case of ASCII letters in the statement
    changes, nor when whitespace -- the runes of [\s]: space, tab, newline,
    form feed, carriage return -- is put in front of the statement or taken
    from its front. *)
Theorem C5_classifiers (statement : gostring) :
  List.length (filter id (classify statement)) <= 1
  /\ (forall statement', map to_lower statement' = map to_lower statement ->
        classify statement' = classify statement)
  /\ (forall ws, forallb is_space ws = true ->
        classify (ws ++ statement) = classify statement).
Proof.
  split; [apply classify_exclusive|].
  split; [intros s'; apply classify_case|intros ws; apply classify_spaces].
Qed.

Lemma C5_classifiers_witness :
  classify (runes "CREATE Table T") = classify (runes "create table t")
  /\ classify ([10; 32; 9]%Z ++ runes "create table t")
     = classify (runes "create table t").
Proof.
  destruct (C5_classifiers (runes "create table t")) as (_ & Hc & Hs).
  split.
  - apply Hc. reflexivity.
  - apply Hs. reflexivity.
Defined.

(** ** The skip marker *)

Module Import skip_facts.
Import regexp.

Lemma skipRule_prog :
  prog (r skipRule)
  = Capture 1 (cat_of (Repeat any_class 1 true
                       :: marker_re ++ [Repeat any_class 1 true])).
Proof. vm_compute. reflexivity. Qed.

Lemma skipRule_groups : numSubexp (r skipRule) = 1.
Proof. vm_compute. reflexivity. Qed.

Lemma applyConversions_one (rule : regexpMap) (s : gostring) :
  applyConversions s [rule] = process rule s.
Proof. reflexivity. Qed.

(** The skip rule is the twelfth of the list. *)
Lemma skip_split :
  createTableConversions
  = firstn 11 createTableConversions ++ [skipRule]
      ++ skipn 12 createTableConversions.
Proof. reflexivity. Qed.

Lemma search_here (re : regex) (n p : nat) pv (rs : gostring) (l : loc) :
  m re p pv rs (repeat None (S n)) (accept p) = Some l ->
  search re n p pv rs = Some l.
Proof. intros H. destruct rs; simpl; simpl in H; rewrite H; reflexivity. Qed.

(** When every way of going on gives the same match, that is the match. *)
Lemma rep_greedy_uniform (c : cclass) min p pv (s : gostring) cs (k : cont)
      (l0 : loc) :
  (forall u rs' l, s = u ++ rs' -> forallb (class_match c) u = true ->
     k (p + List.length u) (last_rune pv u) rs' cs = Some l -> l = l0) ->
  rep_greedy c min p pv s cs k <> None ->
  rep_greedy c min p pv s cs k = Some l0.
Proof.
  intros Hu Hn.
  destruct (rep_greedy c min p pv s cs k) as [l|] eqn:E; [|contradiction].
  apply rep_greedy_sound in E. destruct E as (u & rs' & -> & Hc & _ & Hk).
  f_equal. eapply Hu; eauto.
Qed.

Lemma any_all (s : gostring) : forallb (class_match any_class) s = true.
Proof. induction s; simpl; auto. rewrite any_class_match. auto. Qed.

(** [[\s\S]+] at the end of an expression takes all that is left. *)
Lemma rep_greedy_any min p pv (s : gostring) cs (k : cont) (l : loc) :
  min <= List.length s ->
  k (p + List.length s) (last_rune pv s) [] cs = Some l ->
  rep_greedy any_class min p pv s cs k = Some l.
Proof.
  intros Hm Hk. rewrite <- (app_nil_r s) at 1.
  apply rep_greedy_max; auto. apply any_all.
Qed.

Lemma nocap_marker : nocap (cat_of marker_re) = true.
Proof. reflexivity. Qed.

Lemma marker_here p pv (post : gostring) cs (k : cont) :
  m (cat_of marker_re) p pv (skip_marker ++ post) cs k
  = match
      match k (18 + p) (Some 47%Z) post cs with
      | Some l => Some l
      | None => None
      end
    with
    | Some l => Some l
    | None => None
    end.
Proof. vm_compute. reflexivity. Qed.

(** With something before the marker and something after it, the rule
    matches the whole text. *)
Lemma skipRule_match (T pre post : gostring) :
  T = pre ++ skip_marker ++ post -> pre <> [] -> post <> [] ->
  doExecute (r skipRule) T 0
  = Some [Some (0, List.length T); Some (0, List.length T)].
Proof.
  intros HT Hpre Hpost. unfold doExecute. cbn [rune_before skipn].
  rewrite skipRule_prog, skipRule_groups. apply search_here.
  cbn [m repeat]. rewrite m_cat_of_cons. cbn [m].
  apply rep_greedy_uniform.
  - intros u rs' l E _ H. rewrite m_cat_of_app in H.
    apply m_sound in H. destruct H as (u2 & rs2 & cs2 & -> & _ & C & _ & H).
    rewrite (C nocap_marker) in H. cbn [cat_of m] in H.
    destruct rs2 as [|y rs2]; [discriminate|].
    erewrite rep_greedy_any in H; [| cbn [List.length]; lia | reflexivity].
    injection H as <-. subst T.
    apply (f_equal (@List.length rune)) in E.
    rewrite !length_app in *. cbn [List.length] in E. cbn [set_nth Nat.add].
    rewrite E, Nat.add_assoc. reflexivity.
  - subst T. apply rep_greedy_complete.
    + apply any_all.
    + destruct pre; [contradiction|]. simpl. lia.
    + rewrite m_cat_of_app, marker_here. cbn [cat_of m].
      erewrite rep_greedy_any; [discriminate| |reflexivity].
      destruct post; [contradiction|]. simpl. lia.
Qed.

(** A text with exactly one match. *)
Lemma ReplaceAllString_one (re : Regexp) (src : gostring) (repl : string)
      (a0 a1 : nat) (t1 : loc) :
  doExecute re src 0 = Some (Some (a0, a1) :: t1) -> a0 < a1 ->
  doExecute re src a1 = None ->
  ReplaceAllString re src repl
  = firstn a0 src ++ expand 0 (runes repl) src (Some (a0, a1) :: t1)
      ++ skipn a1 src.
Proof.
  intros H1 L1 H2.
  destruct (doExecute_bounds re src 0 _ (Nat.le_0_l _) H1)
    as (x0 & x1 & tl & E1 & _ & _ & B1).
  injection E1 as E0 E1 _. subst x0 x1.
  pose proof (ReplaceAllString_eq re src repl) as HR.
  assert (H : replaceAll 2 re src (expand 0 (runes repl) src) 0 0 []
              = Some (firstn a0 src
                  ++ expand 0 (runes repl) src (Some (a0, a1) :: t1)
                  ++ skipn a1 src)).
  { cbn [replaceAll]. rewrite H1.
    replace (0 <=? List.length src) with true by (symmetry; apply Nat.leb_le; lia).
    replace (0 <? a1) with true by (symmetry; apply Nat.ltb_lt; lia).
    replace (0 <? List.length src) with true by (symmetry; apply Nat.ltb_lt; lia).
    cbn [orb Nat.add].
    replace (a1 <? 1) with false by (symmetry; apply Nat.ltb_ge; lia).
    replace (a1 <=? List.length src) with true by (symmetry; apply Nat.leb_le; lia).
    rewrite H2. unfold slice at 1. rewrite Nat.sub_0_r.
    cbn [skipn app]. rewrite <- !app_assoc. reflexivity. }
  apply replaceAll_more with (fuel' := List.length src + 2) in H; [|lia].
  congruence.
Qed.

Lemma skipRule_end (T : gostring) :
  doExecute (r skipRule) T (List.length T) = None.
Proof.
  unfold doExecute. rewrite skipn_all, skipRule_prog, skipRule_groups.
  reflexivity.
Qed.

Lemma skipRule_process (T pre post : gostring) :
  T = pre ++ skip_marker ++ post -> pre <> [] -> post <> [] ->
  process skipRule T = [].
Proof.
  intros HT Hpre Hpost. unfold process.
  rewrite (ReplaceAllString_one _ _ _ _ _ _ (skipRule_match T pre post HT Hpre Hpost)).
  - rewrite skipn_all. reflexivity.
  - subst T. destruct pre; [contradiction|]. simpl. lia.
  - apply skipRule_end.
Qed.

Lemma after_skip_empty :
  applyConversions [] (skipn 12 createTableConversions) = [].
Proof. vm_compute. reflexivity. Qed.

Lemma create_split_apply (s : gostring) :
  applyConversions s createTableConversions
  = applyConversions
      (process skipRule (applyConversions s (firstn 11 createTableConversions)))
      (skipn 12 createTableConversions).
Proof.
  rewrite skip_split at 1.
  rewrite !applyConversions_app, applyConversions_one. reflexivity.
Qed.

Lemma create_route (statement : gostring) :
  IsCreateTable statement = true \/ IsAlterTable statement = true ->
  ToSqlite3Dialect statement
  = applyConversions statement createTableConversions.
Proof.
  intros Hk. unfold ToSqlite3Dialect.
  destruct (IsCreateTable statement); [reflexivity|].
  destruct Hk as [Hk|Hk]; [discriminate|]. rewrite Hk. reflexivity.
Qed.

End skip_facts.

(** C4, as the specification words it: a CREATE TABLE statement that ends
    with the marker contains it and is returned as it is, not suppressed. *)
Lemma C4_skip_marker_counterexample :
  IsCreateTable (runes "CREATE TABLE t (id int) /* sqlite3-skip */") = true
  /\ runes "CREATE TABLE t (id int) /* sqlite3-skip */"
     = runes "CREATE TABLE t (id int) " ++ runes "/* sqlite3-skip */" ++ []
  /\ ToSqlite3Dialect (runes "CREATE TABLE t (id int) /* sqlite3-skip */")
     = runes "CREATE TABLE t (id int) /* sqlite3-skip */"
  /\ ToSqlite3Dialect (runes "CREATE TABLE t (id int) /* sqlite3-skip */") <> [].
Proof.
  repeat split; try (vm_compute; reflexivity).
  vm_compute. discriminate.
Qed.

(** C4, amended.  A CREATE TABLE or ALTER TABLE statement is translated to
    the empty statement when the text that reaches the skip rule -- the
    statement after the eleven rules listed before that rule -- holds the
    comment with at least one rune before it and at least one after it. *)
Theorem C4_skip_marker (statement pre post : gostring) :
  IsCreateTable statement = true \/ IsAlterTable statement = true ->
  applyConversions statement (firstn 11 createTableConversions)
  = pre ++ runes "/* sqlite3-skip */" ++ post ->
  pre <> [] -> post <> [] ->
  ToSqlite3Dialect statement = [].
Proof.
  intros Hk HT Hpre Hpost.
  rewrite (create_route statement Hk), create_split_apply.
  rewrite (skipRule_process _ pre post HT Hpre Hpost).
  apply after_skip_empty.
Qed.

Lemma C4_skip_marker_witness :
  ToSqlite3Dialect (runes "ALTER TABLE /* sqlite3-skip */ t MODIFY c BIGINT") = [].
Proof.
  apply (C4_skip_marker (runes "ALTER TABLE /* sqlite3-skip */ t MODIFY c BIGINT")
           (runes "ALTER TABLE ") (runes " t MODIFY c BIGINT")).
  - right. vm_compute. reflexivity.
  - vm_compute. reflexivity.
  - discriminate.
  - discriminate.
Defined.

(** ** Date arithmetic on a qualified column *)

Module Import interval_facts.
Import regexp.


Lemma intervalRule_prog sign :
  is_sign sign ->
  prog (r (intervalRule sign))
  = cat_of (Char op_class :: interval_ref
            :: interval_tail1 sign ++ interval_tail2).
Proof. intros [->| ->]; vm_compute; reflexivity. Qed.







(** A run of non-space runes that starts inside [ref] ends inside it. *)
Lemma split_run : forall (ref tail u rs' : gostring) (x : rune) (t : gostring),
  ref ++ tail = u ++ rs' ->
  forallb (class_match nonspace_class) u = true ->
  tail = x :: t -> is_space x = true ->
  exists v, ref = u ++ v /\ rs' = v ++ tail.
Proof.
  induction ref as [|a ref IH]; intros tail u rs' x t E Hu Ht Hx.
  - simpl in E. destruct u as [|b u].
    + exists []. simpl in *. auto.
    + exfalso. rewrite Ht in E. simpl in E. injection E as <- _.
      simpl in Hu. rewrite nonspace_class_match, Hx in Hu. discriminate.
  - destruct u as [|b u].
    + exists (a :: ref). simpl in *. auto.
    + simpl in E. injection E as <- E. simpl in Hu.
      apply andb_prop in Hu. destruct Hu as [_ Hu].
      destruct (IH tail u rs' x t E Hu Ht Hx) as (v & -> & ->).
      exists v. auto.
Qed.

Lemma nonspace_all_class (s : gostring) :
  nonspace_all s = true -> forallb (class_match nonspace_class) s = true.
Proof.
  unfold nonspace_all. induction s as [|x s IH]; simpl; auto. intros H.
  apply andb_prop in H. destruct H as [Hx H].
  rewrite nonspace_class_match, Hx. auto.
Qed.




Lemma replaceAll_prefix : forall fuel re src repl lastMatchEnd searchPos buf out,
  replaceAll fuel re src repl lastMatchEnd searchPos buf = Some out ->
  exists tail, out = buf ++ tail.
Proof.
  induction fuel as [|fuel IH]; intros re src repl lme sp buf out H;
    [discriminate|].
  simpl in H.
  destruct (sp <=? List.length src); [|injection H as <-; eauto].
  destruct (doExecute re src sp) as [[|[[a0 a1]|] tl]|];
    try (injection H as <-; eauto).
  apply IH in H. destruct H as (tail & ->).
  destruct ((lme <? a1) || (a0 =? 0))%bool; rewrite <- ?app_assoc; eauto.
Qed.



Lemma firstn_exact (A : Type) (b c : list A) : firstn (List.length b) (b ++ c) = b.
Proof. induction b; simpl; congruence. Qed.

Lemma slice_mid (a b c : gostring) :
  slice (a ++ b ++ c) (List.length a) (List.length a + List.length b) = b.
Proof.
  unfold slice. replace (List.length a + List.length b - List.length a)
    with (List.length b) by lia.
  induction a as [|x a IH]; simpl; auto. apply firstn_exact.
Qed.


End interval_facts.




(** ** Spaces in the patterns *)

Module Import spaces_facts.

(** With a one-character [old], [strings.replace] works character by
    character. *)
Lemma replace_space (new : list ascii) (s : list ascii) :
  strings.replace None 0 [" "%char] new s
  = flat_map (fun c => if Ascii.eqb " " c then new else [c]) s.
Proof.
  induction s as [|c s IH]; [reflexivity|].
  cbn [strings.replace flat_map strings.has_prefix andb List.length Nat.pred
       option_map].
  rewrite andb_true_r. rewrite IH.
  destruct (Ascii.eqb " " c); reflexivity.
Qed.

Lemma regexpSpaces_list (s : string) :
  list_ascii_of_string (regexpSpaces s)
  = flat_map (fun c => if Ascii.eqb " " c
                       then list_ascii_of_string "[\s]+" else [c])
      (list_ascii_of_string s).
Proof.
  unfold regexpSpaces, strings.Replace.
  cbn [list_ascii_of_string Z.ltb Z.compare].
  rewrite list_ascii_of_string_of_list_ascii. apply replace_space.
Qed.

Lemma list_ascii_app (s1 s2 : string) :
  list_ascii_of_string (s1 ++ s2)%string
  = list_ascii_of_string s1 ++ list_ascii_of_string s2.
Proof. induction s1; simpl; congruence. Qed.

Lemma string_of_list_inj (s1 s2 : string) :
  list_ascii_of_string s1 = list_ascii_of_string s2 -> s1 = s2.
Proof.
  intros H. rewrite <- (string_of_list_ascii_of_string s1),
    <- (string_of_list_ascii_of_string s2). congruence.
Qed.

Lemma string_length_list (s : string) :
  String.length s = List.length (list_ascii_of_string s).
Proof. induction s; simpl; congruence. Qed.

End spaces_facts.

(** X1.  [regexpSpaces] rewrites a pattern space by space: it distributes
    over concatenation, its result holds no space, it is four characters
    longer per space of the pattern, and a pattern without a space is
    returned as it is. *)
Theorem X1_regexpSpaces_space_by_space (s1 s2 : string) :
  regexpSpaces (s1 ++ s2)%string = (regexpSpaces s1 ++ regexpSpaces s2)%string
  /\ has_space (regexpSpaces s1) = false
  /\ String.length (regexpSpaces s1) = String.length s1 + 4 * count_spaces s1
  /\ (has_space s1 = false -> regexpSpaces s1 = s1).
Proof.
  split; [|split; [|split]].
  - apply string_of_list_inj.
    rewrite list_ascii_app, !regexpSpaces_list, list_ascii_app.
    apply flat_map_app.
  - unfold has_space. rewrite regexpSpaces_list.
    induction (list_ascii_of_string s1) as [|c l IH]; [reflexivity|].
    cbn [flat_map]. rewrite existsb_app, IH, orb_false_r.
    destruct (Ascii.eqb " " c) eqn:E; [reflexivity|].
    cbn [existsb]. rewrite E. reflexivity.
  - unfold count_spaces. rewrite !string_length_list, regexpSpaces_list.
    induction (list_ascii_of_string s1) as [|c l IH]; [reflexivity|].
    cbn [flat_map filter]. rewrite length_app, IH.
    destruct (Ascii.eqb " " c);
      cbn [List.length String.length list_ascii_of_string]; lia.
  - unfold has_space. intros H. apply string_of_list_inj.
    rewrite regexpSpaces_list.
    induction (list_ascii_of_string s1) as [|c l IH]; [reflexivity|].
    cbn [existsb] in H. apply orb_false_elim in H. destruct H as [Hc H].
    cbn [flat_map]. rewrite Hc, IH by exact H. reflexivity.
Qed.

Lemma X1_regexpSpaces_space_by_space_witness :
  regexpSpaces "(?i)now[(][)]" = "(?i)now[(][)]".
Proof.
  destruct (X1_regexpSpaces_space_by_space "(?i)now[(][)]" "")
    as (_ & _ & _ & H).
  apply H. reflexivity.
Defined.

(** ** What the classifiers look at *)

Module Import dispatch_facts.
Import regexp.

Lemma skip_spaces_more (s t : gostring) :
  skip_spaces s <> [] -> skip_spaces (s ++ t) = skip_spaces s ++ t.
Proof.
  induction s as [|x s IH]; [contradiction|]. simpl.
  destruct (is_space x); auto.
Qed.

Lemma kw_prefix_more : forall (kw s s1 t : gostring),
  kw_prefix kw s = Some s1 -> kw_prefix kw (s ++ t) = Some (s1 ++ t).
Proof.
  induction kw as [|a kw IH]; intros s s1 t H.
  - simpl in *. injection H as ->. reflexivity.
  - destruct s as [|x s]; [discriminate|]. simpl in *.
    destruct (fold_lower x =? a)%Z; [auto|discriminate].
Qed.

Lemma kw_prefix_nil (kw : string) (s1 : gostring) :
  good_keyword kw = true -> kw_prefix (runes kw) [] = Some s1 -> False.
Proof.
  unfold good_keyword, runes.
  destruct (list_ascii_of_string kw); [discriminate|]. discriminate.
Qed.

Lemma after_keywords_more : forall kws first (s s1 t : gostring),
  forallb good_keyword kws = true ->
  after_keywords kws first s = Some s1 ->
  after_keywords kws first (s ++ t) = Some (s1 ++ t).
Proof.
  induction kws as [|kw kws IH]; intros first s s1 t Hg H.
  - simpl in *. injection H as ->. reflexivity.
  - simpl in Hg. apply andb_prop in Hg. destruct Hg as [Hkw Hg].
    cbn [after_keywords] in *.
    destruct (first || spaced s)%bool eqn:Hf; [|discriminate].
    destruct (kw_prefix (runes kw) (skip_spaces s)) as [s2|] eqn:Hp;
      [|discriminate].
    assert (Hn : skip_spaces s <> []).
    { intros E. rewrite E in Hp. eapply kw_prefix_nil; eauto. }
    replace (first || spaced (s ++ t))%bool with true.
    + rewrite skip_spaces_more by exact Hn.
      rewrite (kw_prefix_more _ _ _ t Hp). apply IH; auto.
    + destruct first; [reflexivity|]. simpl in Hf.
      destruct s as [|x s]; [discriminate|]. simpl in *. auto.
Qed.

Lemma starts_with_more (kws : list string) (s t : gostring) :
  forallb good_keyword kws = true ->
  starts_with kws s = true -> starts_with kws (s ++ t) = true.
Proof.
  unfold starts_with. intros Hg H.
  destruct (after_keywords kws true s) as [s1|] eqn:E; [|discriminate].
  rewrite (after_keywords_more _ _ _ _ t Hg E). reflexivity.
Qed.

(** A classifier that accepts a statement accepts every statement that
    starts with it. *)
Lemma classify_more (s t : gostring) :
  Forall2 (fun a b => a = true -> b = true) (classify s) (classify (s ++ t)).
Proof.
  rewrite !classify_spec.
  repeat constructor; intros H;
    repeat match goal with
           | H : (_ || _)%bool = true |- _ =>
               apply orb_prop in H; destruct H as [H|H]
           end;
    try (apply starts_with_more; [reflexivity|exact H]);
    apply orb_true_iff;
    solve [ left; apply starts_with_more; [reflexivity|exact H]
          | right; apply starts_with_more; [reflexivity|exact H] ].
Qed.

Lemma applyConversions_no_match (rules : list regexpMap) (s : gostring) :
  Forall (fun rule => MatchString (r rule) s = false) rules ->
  applyConversions s rules = s.
Proof.
  intros H. induction H as [|x l Hx Hl IH]; simpl; [reflexivity|].
  unfold process at 1. rewrite ReplaceAllString_no_match; auto.
Qed.

(** The first turn of the replacement loop: without a match the text is
    returned; with one, the text in front of the leftmost match is kept and
    the expanded template follows it. *)
Lemma ReplaceAllString_cases (re : Regexp) (src : gostring) (repl : string) :
  (doExecute re src 0 = None /\ ReplaceAllString re src repl = src)
  \/ exists a0 a1 t1 tail,
       doExecute re src 0 = Some (Some (a0, a1) :: t1)
       /\ a0 <= a1 /\ a1 <= List.length src
       /\ ReplaceAllString re src repl
          = firstn a0 src ++ expand 0 (runes repl) src (Some (a0, a1) :: t1)
              ++ tail.
Proof.
  destruct (doExecute re src 0) as [l|] eqn:H1.
  - right.
    destruct (doExecute_bounds re src 0 _ (Nat.le_0_l _) H1)
      as (a0 & a1 & t1 & -> & _ & B0 & B1).
    pose proof (ReplaceAllString_eq re src repl) as HR.
    replace (List.length src + 2) with (S (S (List.length src))) in HR by lia.
    remember (S (List.length src)) as f eqn:Ef.
    cbn [replaceAll] in HR. rewrite H1 in HR.
    replace (0 <=? List.length src) with true in HR
      by (symmetry; apply Nat.leb_le; lia).
    replace ((0 <? a1) || (a0 =? 0))%bool with true in HR.
    + unfold slice at 1 in HR. rewrite Nat.sub_0_r in HR.
      cbn [skipn app] in HR.
      destruct (replaceAll_prefix _ _ _ _ _ _ _ _ HR) as (tail & E).
      exists a0, a1, t1, tail. rewrite <- app_assoc in E. auto.
    + symmetry. apply orb_true_iff.
      destruct a1; [right; apply Nat.eqb_eq; lia|left; reflexivity].
  - left. split; [reflexivity|]. apply ReplaceAllString_no_match.
    unfold MatchString. rewrite H1. reflexivity.
Qed.

Lemma expand_literal_head (repl : string) (src : gostring) (a : loc) :
  literal_head repl = true -> expand 0 (runes repl) src a <> [].
Proof.
  unfold literal_head. destruct (runes repl) as [|c t]; [discriminate|].
  intros H. cbn [expand]. destruct (c =? 36)%Z; discriminate.
Qed.

Lemma process_nonempty (rule : regexpMap) (s : gostring) :
  literal_head (replacement rule) = true -> s <> [] -> process rule s <> [].
Proof.
  intros Hl Hs. unfold process.
  destruct (ReplaceAllString_cases (r rule) s (replacement rule))
    as [[_ ->]|(a0 & a1 & t1 & tail & _ & _ & _ & ->)]; [exact Hs|].
  intros E. apply app_eq_nil in E. destruct E as [_ E].
  apply app_eq_nil in E. destruct E as [E _].
  revert E. apply expand_literal_head. exact Hl.
Qed.

Lemma applyConversions_nonempty (rules : list regexpMap) :
  forallb (fun rule => literal_head (replacement rule)) rules = true ->
  forall s, s <> [] -> applyConversions s rules <> [].
Proof.
  induction rules as [|rule rules IH]; intros H s Hs; [exact Hs|].
  simpl in H. apply andb_prop in H. destruct H as [Hr H].
  cbn [applyConversions]. apply IH; auto. apply process_nonempty; auto.
Qed.

Lemma general_literal :
  forallb (fun rule => literal_head (replacement rule)) generalConversions
  = true.
Proof. vm_compute. reflexivity. Qed.

Lemma insert_literal :
  forallb (fun rule => literal_head (replacement rule)) insertConversions
  = true.
Proof. vm_compute. reflexivity. Qed.

End dispatch_facts.

(** X2.  Each classifier is a test on the head of the statement: it accepts
    exactly the statements that, after optional whitespace, start with its
    keywords, consecutive keywords separated by whitespace and letters
    compared as [(?i)] compares them.  [IsInsert] has the two keywords insert
    and replace to choose from, [IsCreateIndex] allows UNIQUE between CREATE
    and INDEX. *)
Theorem X2_classifiers_are_prefix_tests (statement : gostring) :
  IsInsert statement
  = (regexp.starts_with ["insert"] statement
     || regexp.starts_with ["replace"] statement)%bool
  /\ IsCreateTable statement = regexp.starts_with ["create"; "table"] statement
  /\ IsCreateIndex statement
     = (regexp.starts_with ["create"; "unique"; "index"] statement
        || regexp.starts_with ["create"; "index"] statement)%bool
  /\ IsDropIndex statement = regexp.starts_with ["drop"; "index"] statement
  /\ IsAlterTable statement = regexp.starts_with ["alter"; "table"] statement.
Proof.
  repeat split.
  - apply IsInsert_spec.
  - apply IsCreateTable_spec.
  - apply IsCreateIndex_spec.
  - apply IsDropIndex_spec.
  - apply IsAlterTable_spec.
Qed.

(** X3.  Once a classifier accepts a statement, nothing that is appended to
    the statement changes the answer of any of the five classifiers. *)
Theorem X3_classified_by_prefix (statement more : gostring) :
  existsb id (classify statement) = true ->
  classify (statement ++ more) = classify statement.
Proof.
  pose proof (classify_more statement more) as M.
  pose proof (classify_exclusive statement) as E1.
  pose proof (classify_exclusive (statement ++ more)) as E2.
  unfold classify in *.
  repeat match goal with
         | H : Forall2 _ (_ :: _) (_ :: _) |- _ =>
             apply Forall2_cons_iff in H; destruct H as [? H]
         end.
  clear M.
  destruct (IsInsert statement), (IsCreateTable statement),
    (IsCreateIndex statement), (IsDropIndex statement),
    (IsAlterTable statement); cbn in E1; try lia; try discriminate;
    intros _;
    repeat match goal with
           | H : true = true -> _ |- _ => rewrite (H eq_refl) in *; clear H
           | H : false = true -> _ |- _ => clear H
           end;
    destruct (IsInsert (statement ++ more)),
      (IsCreateTable (statement ++ more)),
      (IsCreateIndex (statement ++ more)), (IsDropIndex (statement ++ more)),
      (IsAlterTable (statement ++ more)); cbn in E2; try lia; reflexivity.
Qed.

Lemma X3_classified_by_prefix_witness :
  classify (runes "create table" ++ runes " t (id int)")
  = classify (runes "create table").
Proof.
  apply (X3_classified_by_prefix (runes "create table") (runes " t (id int)")).
  vm_compute. reflexivity.
Defined.

(** X4.  A statement whose first rune after the leading whitespace folds to
    none of the letters a, c, d, i, r -- a statement that starts with a
    comment or a parenthesis, say, or that is blank -- is accepted by none of
    the five classifiers. *)
Theorem X4_unclassified_statement (statement : gostring) :
  first_rune_in [97; 99; 100; 105; 114]%Z statement = false ->
  classify statement = [false; false; false; false; false].
Proof.
  unfold first_rune_in. rewrite classify_spec. unfold regexp.starts_with.
  cbn [regexp.after_keywords orb].
  change (runes "insert") with [105; 110; 115; 101; 114; 116]%Z.
  change (runes "replace") with [114; 101; 112; 108; 97; 99; 101]%Z.
  change (runes "create") with [99; 114; 101; 97; 116; 101]%Z.
  change (runes "drop") with [100; 114; 111; 112]%Z.
  change (runes "alter") with [97; 108; 116; 101; 114]%Z.
  destruct (regexp.skip_spaces statement) as [|x t]; [reflexivity|].
  cbn [existsb]. rewrite !kw_prefix_cons. intros H.
  repeat (apply orb_false_elim in H; destruct H as [? H]).
  repeat match goal with E : (_ =? _)%Z = false |- _ => rewrite E; clear E end.
  reflexivity.
Qed.

Lemma X4_unclassified_statement_witness :
  classify (runes "/* c */ CREATE TABLE t (id int)")
  = [false; false; false; false; false]
  /\ classify (runes "  ") = [false; false; false; false; false].
Proof.
  split.
  - apply (X4_unclassified_statement (runes "/* c */ CREATE TABLE t (id int)")).
    vm_compute. reflexivity.
  - apply (X4_unclassified_statement (runes "  ")). vm_compute. reflexivity.
Defined.

(** ** Statements the rules leave alone *)

(** X5.  A statement that no rule on its way matches is returned as it is:
    a CREATE TABLE or ALTER TABLE statement that no create/alter rule
    matches; any other statement that no general rule matches and, if it is
    an INSERT or REPLACE statement, no insert rule either. *)
Theorem X5_unmatched_statement_unchanged (statement : gostring) :
  (IsCreateTable statement = true \/ IsAlterTable statement = true ->
   Forall (fun rule => regexp.MatchString (r rule) statement = false)
     createTableConversions ->
   ToSqlite3Dialect statement = statement)
  /\ (IsCreateTable statement = false -> IsAlterTable statement = false ->
      Forall (fun rule => regexp.MatchString (r rule) statement = false)
        generalConversions ->
      (IsInsert statement = true ->
       Forall (fun rule => regexp.MatchString (r rule) statement = false)
         insertConversions) ->
      ToSqlite3Dialect statement = statement).
Proof.
  split.
  - intros Hk Hn. rewrite (create_route statement Hk).
    apply applyConversions_no_match. exact Hn.
  - intros Hc Ha Hg Hi. unfold ToSqlite3Dialect, ToSqlite3Insert.
    rewrite Hc, Ha. cbv zeta.
    rewrite (applyConversions_no_match _ _ Hg).
    destruct (IsInsert statement); [|reflexivity].
    apply applyConversions_no_match. auto.
Qed.

Lemma X5_unmatched_statement_unchanged_witness :
  ToSqlite3Dialect (runes "CREATE TABLE t (id int)")
  = runes "CREATE TABLE t (id int)"
  /\ ToSqlite3Dialect (runes "INSERT INTO t VALUES (1)")
     = runes "INSERT INTO t VALUES (1)".
Proof.
  split.
  - destruct (X5_unmatched_statement_unchanged (runes "CREATE TABLE t (id int)"))
      as [H _].
    apply H.
    + left. vm_compute. reflexivity.
    + repeat constructor; vm_compute; reflexivity.
  - destruct (X5_unmatched_statement_unchanged (runes "INSERT INTO t VALUES (1)"))
      as [_ H].
    apply H.
    + vm_compute. reflexivity.
    + vm_compute. reflexivity.
    + repeat constructor; vm_compute; reflexivity.
    + intros _. repeat constructor; vm_compute; reflexivity.
Defined.

(** X6.  Only the create/alter rules can suppress a statement: the
    translation of a non-empty statement that is neither a CREATE TABLE nor
    an ALTER TABLE statement is never empty, because every template of the
    general rules and of the insert rules starts with literal text. *)
Theorem X6_no_suppression_outside_create_alter (statement : gostring) :
  statement <> [] ->
  IsCreateTable statement = false -> IsAlterTable statement = false ->
  ToSqlite3Dialect statement <> [].
Proof.
  intros Hs Hc Ha. unfold ToSqlite3Dialect, ToSqlite3Insert.
  rewrite Hc, Ha. cbv zeta.
  pose proof (applyConversions_nonempty _ general_literal _ Hs) as Hg.
  destruct (IsInsert (applyConversions statement generalConversions));
    [|exact Hg].
  apply (applyConversions_nonempty _ insert_literal). exact Hg.
Qed.

Lemma X6_no_suppression_outside_create_alter_witness :
  ToSqlite3Dialect (runes "select /* sqlite3-skip */ 1") <> [].
Proof.
  apply (X6_no_suppression_outside_create_alter
           (runes "select /* sqlite3-skip */ 1")).
  - discriminate.
  - vm_compute. reflexivity.
  - vm_compute. reflexivity.
Defined.

(** ** ADD INDEX as a statement of its own *)

Module Import step_facts.
Import regexp.

Lemma addIndexRule_prog unique :
  prog (r (addIndexRule unique)) = cat_of (add_index_re unique).
Proof. destruct unique; vm_compute; reflexivity. Qed.

Lemma addIndexRule_groups unique : numSubexp (r (addIndexRule unique)) = 4.
Proof. destruct unique; vm_compute; reflexivity. Qed.

Lemma dot_match (x : rune) : class_match (dot true) x = negb (x =? 10)%Z.
Proof. unfold dot. class_tac. Qed.

Lemma fold_not_space (x a : rune) :
  fold_lower x = a -> is_lower a = true -> is_space x = false.
Proof.
  intros <- H. destruct (is_space x) eqn:Hx; [|reflexivity].
  pose proof (fold_lower_space x (fold_lower x) Hx H) as E.
  rewrite Z.eqb_refl in E. discriminate.
Qed.

Lemma good_keyword_lower (kw : string) :
  good_keyword kw = true -> forallb is_lower (runes kw) = true.
Proof.
  unfold good_keyword, runes. intros Hg.
  destruct (list_ascii_of_string kw); [discriminate|].
  apply lower_word_runes. exact Hg.
Qed.

(** A spelled keyword starts with a rune that is not whitespace. *)
Lemma spelled_head (kw : string) (k rest : gostring) :
  good_keyword kw = true -> spelled kw k ->
  match k ++ rest with y :: _ => is_space y = false | [] => True end.
Proof.
  intros Hg Hk. pose proof (good_keyword_lower kw Hg) as Hl.
  unfold spelled in Hk. destruct k as [|x k].
  - unfold good_keyword, runes in *.
    destruct (list_ascii_of_string kw); discriminate.
  - destruct (runes kw) as [|a l]; [discriminate|].
    simpl in Hk. injection Hk as Hx _. simpl in Hl.
    apply andb_prop in Hl. destruct Hl as [Ha _].
    simpl. eapply fold_not_space; eauto.
Qed.

Lemma spelled_prefix : forall (kw k rest : gostring),
  map fold_lower k = kw -> kw_prefix kw (k ++ rest) = Some rest.
Proof.
  induction kw as [|a kw IH]; intros [|x k] rest H; try discriminate; auto.
  simpl in H. injection H as Hx Hk. simpl. rewrite Hx, Z.eqb_refl. auto.
Qed.

(** One step of a match: a keyword. *)
Lemma step_keyword (kw : string) (rs : list regex) p pv (k rest : gostring)
      cs (K : cont) :
  good_keyword kw = true -> spelled kw k ->
  m (cat_of (keyword kw ++ rs)) p pv (k ++ rest) cs K
  = m (cat_of rs) (p + List.length k) (last_rune pv k) rest cs K.
Proof.
  intros Hg Hk. unfold keyword.
  assert (Hw : lower_word (list_ascii_of_string kw) = true).
  { unfold good_keyword in Hg. destruct (list_ascii_of_string kw);
      [discriminate|exact Hg]. }
  rewrite m_keyword by exact Hw. unfold spelled, runes in Hk.
  rewrite (spelled_prefix _ _ _ Hk).
  assert (El : List.length (list_ascii_of_string kw) = List.length k).
  { rewrite <- (length_map rune_of_ascii), <- Hk, length_map. reflexivity. }
  rewrite El, firstn_exact. reflexivity.
Qed.

(** One step of a match: whitespace in front of something else. *)
Lemma step_spaces (min : nat) (rs : list regex) p pv (b rest : gostring)
      cs (K : cont) (l : loc) :
  forallb is_space b = true -> min <= List.length b ->
  match rest with y :: _ => is_space y = false | [] => True end ->
  m (cat_of rs) (p + List.length b) (last_rune pv b) rest cs K = Some l ->
  m (cat_of (spaces min :: rs)) p pv (b ++ rest) cs K = Some l.
Proof.
  intros Hb Hm Hr H. rewrite m_cat_of_cons. unfold spaces. cbn [m].
  apply rep_greedy_max; auto.
  - clear - Hb. induction b as [|x b IH]; simpl in *; auto.
    apply andb_prop in Hb. destruct Hb as [Hx Hb].
    rewrite space_class_match, Hx. auto.
  - destruct rest as [|y rest]; auto. rewrite space_class_match. exact Hr.
Qed.

(** One step of a match: a group that holds a run of one class. *)
Lemma step_group (n : nat) (c : cclass) (min : nat) (rs : list regex) p pv
      (u rest : gostring) cs (K : cont) (l : loc) :
  forallb (class_match c) u = true -> min <= List.length u ->
  match rest with y :: _ => class_match c y = false | [] => True end ->
  m (cat_of rs) (p + List.length u) (last_rune pv u) rest
    (set_nth n (Some (p, p + List.length u)) cs) K = Some l ->
  m (cat_of (Capture n (Repeat c min true) :: rs)) p pv (u ++ rest) cs K
  = Some l.
Proof.
  intros Hu Hm Hr H. rewrite m_cat_of_cons. cbn [m].
  apply rep_greedy_max; auto.
Qed.

(** One step of a match: the group around [index|key]. *)
Lemma step_index_key (n : nat) (rs : list regex) p pv (k rest : gostring)
      cs (K : cont) (l : loc) :
  spelled "index" k \/ spelled "key" k ->
  m (cat_of rs) (p + List.length k) (last_rune pv k) rest
    (set_nth n (Some (p, p + List.length k)) cs) K = Some l ->
  m (cat_of (Capture n (Alt (cat_of (keyword "index")) (cat_of (keyword "key")))
             :: rs)) p pv (k ++ rest) cs K
  = Some l.
Proof.
  intros Hk H. rewrite m_cat_of_cons. cbn [m].
  rewrite <- (app_nil_r (keyword "index")), <- (app_nil_r (keyword "key")).
  destruct Hk as [Hk|Hk].
  - rewrite step_keyword by (reflexivity || exact Hk). cbn [cat_of m].
    rewrite H. reflexivity.
  - replace (m (cat_of (keyword "index" ++ [])) p pv (k ++ rest) cs _)
      with (@None loc).
    + rewrite step_keyword by (reflexivity || exact Hk). cbn [cat_of m].
      exact H.
    + symmetry. unfold keyword. rewrite m_keyword by reflexivity.
      unfold spelled in Hk. destruct k as [|x k]; [discriminate|].
      change (runes "key") with [107; 101; 121]%Z in Hk.
      simpl in Hk. injection Hk as Hx _.
      cbn [list_ascii_of_string map app]. rewrite kw_prefix_cons, Hx.
      reflexivity.
Qed.

Lemma nonspace_run (u : gostring) :
  nonspace_all u = true -> forallb (class_match nonspace_class) u = true.
Proof. apply nonspace_all_class. Qed.

Lemma dot_run (u : gostring) :
  no_newline u = true -> forallb (class_match (dot true)) u = true.
Proof.
  unfold no_newline. induction u as [|x u IH]; simpl; auto. intros H.
  apply andb_prop in H. destruct H as [Hx H]. rewrite dot_match, Hx. auto.
Qed.

Lemma blank_spaces (b : gostring) :
  blank b = true -> forallb is_space b = true /\ 1 <= List.length b.
Proof.
  unfold blank. intros H. apply andb_prop in H. destruct H as [Hn Hb].
  split; [exact Hb|]. destruct b; [discriminate|simpl; lia].
Qed.

Lemma blank_head (b rest : gostring) :
  blank b = true ->
  match b ++ rest with
  | y :: _ => class_match nonspace_class y = false
  | [] => True
  end.
Proof.
  intros H. apply blank_spaces in H. destruct H as [Hb Hl].
  destruct b as [|y b]; [simpl in Hl; lia|]. simpl in *.
  apply andb_prop in Hb. destruct Hb as [Hy _].
  rewrite nonspace_class_match, Hy. reflexivity.
Qed.

Lemma slice_at (pfx u rest : gostring) (p : nat) :
  p = List.length pfx ->
  slice (pfx ++ u ++ rest) p (p + List.length u) = u.
Proof. intros ->. apply slice_mid. Qed.

Lemma nonspace_head (u rest : gostring) :
  u <> [] -> nonspace_all u = true ->
  match u ++ rest with y :: _ => is_space y = false | [] => True end.
Proof.
  intros Hn Hu. destruct u as [|y u]; [contradiction|]. simpl in *.
  apply andb_prop in Hu. destruct Hu as [Hy _].
  destruct (is_space y); [discriminate|reflexivity].
Qed.

Lemma nonempty_length (u : gostring) : u <> [] -> 1 <= List.length u.
Proof. destruct u; [contradiction|simpl; lia]. Qed.

(** From the blank in front of [index] or [key] to the end of the
    statement. *)
Lemma add_index_tail a0 p pv cs (b4 kind b5 idx b6 cols : gostring) :
  blank b4 = true -> spelled "index" kind \/ spelled "key" kind ->
  blank b5 = true -> idx <> [] -> nonspace_all idx = true ->
  blank b6 = true -> cols <> [] -> no_newline cols = true ->
  spaced cols = false ->
  m (cat_of [spaces 1;
             Capture 2 (Alt (cat_of (keyword "index")) (cat_of (keyword "key")));
             spaces 1; Capture 3 (Repeat nonspace_class 1 true);
             spaces 1; Capture 4 (Repeat (dot true) 1 true)])
    p pv (b4 ++ kind ++ b5 ++ idx ++ b6 ++ cols) cs (accept a0)
  = Some
      (set_nth 0
         (Some (a0, p + List.length b4 + List.length kind + List.length b5
                    + List.length idx + List.length b6 + List.length cols))
         (set_nth 4
            (Some (p + List.length b4 + List.length kind + List.length b5
                   + List.length idx + List.length b6,
                   p + List.length b4 + List.length kind + List.length b5
                   + List.length idx + List.length b6 + List.length cols))
            (set_nth 3
               (Some (p + List.length b4 + List.length kind + List.length b5,
                      p + List.length b4 + List.length kind + List.length b5
                      + List.length idx))
               (set_nth 2
                  (Some (p + List.length b4,
                         p + List.length b4 + List.length kind)) cs)))).
Proof.
  intros H4 Hk H5 Hi Hin H6 Hc Hcn Hcs.
  destruct (blank_spaces _ H4) as [S4 L4].
  destruct (blank_spaces _ H5) as [S5 L5].
  destruct (blank_spaces _ H6) as [S6 L6].
  apply step_spaces; auto.
  { destruct Hk as [Hk|Hk]; eapply spelled_head; eauto; reflexivity. }
  apply step_index_key; auto.
  apply step_spaces; auto.
  { apply nonspace_head; auto. }
  apply step_group.
  { apply nonspace_run; exact Hin. }
  { apply nonempty_length; exact Hi. }
  { apply blank_head; exact H6. }
  apply step_spaces; auto.
  { destruct cols; [exact I|exact Hcs]. }
  rewrite <- (app_nil_r cols) at 1.
  apply step_group.
  { apply dot_run; exact Hcn. }
  { apply nonempty_length; exact Hc. }
  { exact I. }
  reflexivity.
Qed.

(** The match of the rule on an ALTER TABLE ... ADD INDEX statement: the
    whole statement but the whitespace in front of it, and the four groups. *)
Lemma add_index_match (unique : bool)
      (ws alter b1 table b2 tbl b3 add ub uq b4 kind b5 idx b6 cols : gostring) :
  forallb is_space ws = true ->
  spelled "alter" alter -> blank b1 = true ->
  spelled "table" table -> blank b2 = true ->
  tbl <> [] -> nonspace_all tbl = true -> blank b3 = true ->
  spelled "add" add ->
  (if unique then blank ub = true /\ spelled "unique" uq
   else ub = [] /\ uq = []) ->
  blank b4 = true -> spelled "index" kind \/ spelled "key" kind ->
  blank b5 = true -> idx <> [] -> nonspace_all idx = true ->
  blank b6 = true -> cols <> [] -> no_newline cols = true ->
  spaced cols = false ->
  let P1 := ws ++ alter ++ b1 ++ table ++ b2 in
  let P2 := P1 ++ tbl ++ b3 ++ add ++ ub ++ uq ++ b4 in
  let P3 := P2 ++ kind ++ b5 in
  let P4 := P3 ++ idx ++ b6 in
  doExecute (r (addIndexRule unique))
    (ws ++ alter ++ b1 ++ table ++ b2 ++ tbl ++ b3 ++ add ++ ub ++ uq
     ++ b4 ++ kind ++ b5 ++ idx ++ b6 ++ cols) 0
  = Some [Some (List.length ws, List.length P4 + List.length cols);
          Some (List.length P1, List.length P1 + List.length tbl);
          Some (List.length P2, List.length P2 + List.length kind);
          Some (List.length P3, List.length P3 + List.length idx);
          Some (List.length P4, List.length P4 + List.length cols)].
Proof.
  intros Hws Ha H1 Ht H2 Htn Hts H3 Hadd Hu H4 Hk H5 Hi Hin H6 Hc Hcn Hcs
         P1 P2 P3 P4.
  destruct (blank_spaces _ H1) as [S1 L1].
  destruct (blank_spaces _ H2) as [S2 L2].
  destruct (blank_spaces _ H3) as [S3 L3].
  unfold doExecute. cbn [rune_before skipn].
  rewrite addIndexRule_prog, addIndexRule_groups. unfold add_index_re.
  rewrite search_skip.
  2:{ intros a x b ->. unfold keyword at 1. rewrite m_keyword by reflexivity.
      rewrite forallb_app in Hws. apply andb_prop in Hws.
      destruct Hws as [_ Hws]. simpl in Hws. apply andb_prop in Hws.
      destruct Hws as [Hx _]. cbn [list_ascii_of_string].
      rewrite kw_prefix_space by (reflexivity || exact Hx). reflexivity. }
  apply search_here. cbn [Nat.add repeat].
  rewrite step_keyword by (reflexivity || assumption).
  apply step_spaces; auto.
  { eapply spelled_head; eauto; reflexivity. }
  rewrite step_keyword by (reflexivity || assumption).
  apply step_spaces; auto.
  { apply nonspace_head; auto. }
  apply step_group.
  { apply nonspace_run; exact Hts. }
  { apply nonempty_length; exact Htn. }
  { apply blank_head; exact H3. }
  apply step_spaces; auto.
  { eapply spelled_head; eauto; reflexivity. }
  rewrite step_keyword by (reflexivity || assumption).
  destruct unique.
  - destruct Hu as [Hub Huq]. destruct (blank_spaces _ Hub) as [Su Lu].
    cbn [app].
    apply step_spaces; auto.
    { eapply spelled_head; eauto; reflexivity. }
    rewrite step_keyword by (reflexivity || assumption).
    rewrite add_index_tail by assumption.
    cbn [set_nth]. unfold P4, P3, P2, P1.
    repeat f_equal; rewrite ?length_app; lia.
  - destruct Hu as [-> ->]. cbn [app].
    rewrite add_index_tail by assumption.
    cbn [set_nth]. unfold P4, P3, P2, P1.
    repeat f_equal; rewrite ?length_app; cbn [List.length]; lia.
Qed.

Lemma addIndexRule_end unique (T : gostring) :
  doExecute (r (addIndexRule unique)) T (List.length T) = None.
Proof.
  unfold doExecute. rewrite skipn_all, addIndexRule_prog, addIndexRule_groups.
  destruct unique; reflexivity.
Qed.

(** The template of the rule, expanded. *)
Lemma add_index_expand unique (src : gostring) (a g : option (nat * nat))
      t0 t1 i0 i1 c0 c1 :
  expand 0 (runes (replacement (addIndexRule unique))) src
    [a; Some (t0, t1); g; Some (i0, i1); Some (c0, c1)]
  = runes (if unique then "create unique index " else "create index ")
      ++ slice src i0 i1 ++ runes "_" ++ slice src t0 t1 ++ runes " on "
      ++ slice src t0 t1 ++ runes " " ++ slice src c0 c1 ++ [].
Proof. destruct unique; vm_compute; reflexivity. Qed.

End step_facts.

(** X7.  The two ADD INDEX rules on a whole statement.  Take ALTER TABLE
    tbl ADD [UNIQUE] INDEX|KEY idx cols, the keywords in any letter case,
    any whitespace between the words and in front of the statement, the
    table and index names free of whitespace, and cols on one line.  The
    rule for it returns the leading whitespace and then create [unique]
    index idx_tbl on tbl cols: the index is named after the index and the
    table, and single blanks and lower-case keywords come from the
    template. *)
Theorem X7_add_index_rewrite (unique : bool)
      (ws alter b1 table b2 tbl b3 add ub uq b4 kind b5 idx b6 cols : gostring) :
  forallb is_space ws = true ->
  spelled "alter" alter -> blank b1 = true ->
  spelled "table" table -> blank b2 = true ->
  tbl <> [] -> nonspace_all tbl = true -> blank b3 = true ->
  spelled "add" add ->
  (if unique then blank ub = true /\ spelled "unique" uq
   else ub = [] /\ uq = []) ->
  blank b4 = true -> spelled "index" kind \/ spelled "key" kind ->
  blank b5 = true -> idx <> [] -> nonspace_all idx = true ->
  blank b6 = true -> cols <> [] -> no_newline cols = true ->
  regexp.spaced cols = false ->
  nth_error createTableConversions (if unique then 9 else 8)
  = Some (addIndexRule unique)
  /\ process (addIndexRule unique)
       (ws ++ alter ++ b1 ++ table ++ b2 ++ tbl ++ b3 ++ add ++ ub ++ uq
        ++ b4 ++ kind ++ b5 ++ idx ++ b6 ++ cols)
     = ws ++ runes (if unique then "create unique index " else "create index ")
         ++ idx ++ runes "_" ++ tbl ++ runes " on " ++ tbl ++ runes " " ++ cols.
Proof.
  intros Hws Ha H1 Ht H2 Htn Hts H3 Hadd Hu H4 Hk H5 Hi Hin H6 Hc Hcn Hcs.
  split; [destruct unique; reflexivity|].
  pose proof (add_index_match unique ws alter b1 table b2 tbl b3 add ub uq b4
                kind b5 idx b6 cols Hws Ha H1 Ht H2 Htn Hts H3 Hadd Hu H4 Hk
                H5 Hi Hin H6 Hc Hcn Hcs) as Hm.
  cbv zeta in Hm.
  set (P1 := ws ++ alter ++ b1 ++ table ++ b2) in *.
  set (P2 := P1 ++ tbl ++ b3 ++ add ++ ub ++ uq ++ b4) in *.
  set (P3 := P2 ++ kind ++ b5) in *.
  set (P4 := P3 ++ idx ++ b6) in *.
  set (src := ws ++ alter ++ b1 ++ table ++ b2 ++ tbl ++ b3 ++ add ++ ub ++ uq
              ++ b4 ++ kind ++ b5 ++ idx ++ b6 ++ cols) in *.
  assert (E1 : src = P1 ++ tbl ++ (b3 ++ add ++ ub ++ uq ++ b4 ++ kind ++ b5
                                    ++ idx ++ b6 ++ cols)).
  { unfold src, P1. rewrite <- !app_assoc. reflexivity. }
  assert (E3 : src = P3 ++ idx ++ (b6 ++ cols)).
  { unfold src, P3, P2, P1. rewrite <- !app_assoc. reflexivity. }
  assert (E4 : src = P4 ++ cols ++ []).
  { unfold src, P4, P3, P2, P1. rewrite <- !app_assoc, app_nil_r. reflexivity. }
  assert (El : List.length P4 + List.length cols = List.length src).
  { rewrite E4, !length_app. simpl. lia. }
  assert (E0 : firstn (List.length ws) src = ws) by apply firstn_exact.
  unfold process.
  rewrite (ReplaceAllString_one _ _ _ _ _ _ Hm).
  - rewrite add_index_expand.
    assert (S1 : regexp.slice src (List.length P1) (List.length P1 + List.length tbl)
                 = tbl) by (rewrite E1; apply slice_at; reflexivity).
    assert (S3 : regexp.slice src (List.length P3) (List.length P3 + List.length idx)
                 = idx) by (rewrite E3; apply slice_at; reflexivity).
    assert (S4 : regexp.slice src (List.length P4) (List.length P4 + List.length cols)
                 = cols) by (rewrite E4; apply slice_at; reflexivity).
    rewrite S1, S3, S4, E0, El, skipn_all, !app_nil_r. reflexivity.
  - apply nonempty_length in Hc. unfold P4, P3, P2, P1.
    rewrite !length_app. lia.
  - rewrite El. apply addIndexRule_end.
Qed.

Lemma X7_add_index_rewrite_witness :
  process (addIndexRule false)
    (runes " " ++ runes "ALTER" ++ runes " " ++ runes "Table" ++ runes "  "
     ++ runes "t" ++ runes " " ++ runes "add" ++ [] ++ [] ++ runes " "
     ++ runes "KEY" ++ runes " " ++ runes "idx_name" ++ runes " "
     ++ runes "(name, age)")
  = runes " " ++ runes "create index " ++ runes "idx_name" ++ runes "_"
      ++ runes "t" ++ runes " on " ++ runes "t" ++ runes " "
      ++ runes "(name, age)"
  /\ process (addIndexRule true)
       ([] ++ runes "alter" ++ runes " " ++ runes "table" ++ runes " "
        ++ runes "t" ++ runes " " ++ runes "add" ++ runes " "
        ++ runes "unique" ++ runes " " ++ runes "index" ++ runes " "
        ++ runes "u" ++ runes " " ++ runes "(a)")
     = [] ++ runes "create unique index " ++ runes "u" ++ runes "_"
         ++ runes "t" ++ runes " on " ++ runes "t" ++ runes " " ++ runes "(a)".
Proof.
  split.
  - apply (X7_add_index_rewrite false (runes " ") (runes "ALTER") (runes " ")
             (runes "Table") (runes "  ") (runes "t") (runes " ") (runes "add")
             [] [] (runes " ") (runes "KEY") (runes " ") (runes "idx_name")
             (runes " ") (runes "(name, age)"));
      try reflexivity; try discriminate; try (split; reflexivity).
    right. reflexivity.
  - apply (X7_add_index_rewrite true [] (runes "alter") (runes " ")
             (runes "table") (runes " ") (runes "t") (runes " ") (runes "add")
             (runes " ") (runes "unique") (runes " ") (runes "index")
             (runes " ") (runes "u") (runes " ") (runes "(a)"));
      try reflexivity; try discriminate; try (split; reflexivity).
    left. reflexivity.
Defined.

(** ** The first keyword of a statement *)

Module Import head_facts.
Import regexp.

Lemma lead_sound : forall re p pv s cs k l,
  m re p pv s cs k = Some l -> prefix_ok (lead re) s = true.
Proof.
  induction re as [|c|c min g|r1 IH1 r2 IH2|r1 IH1 r2 IH2|n r1 IH1| | |];
    intros p pv s cs k l H; try reflexivity.
  - simpl in H. destruct s as [|x s]; [discriminate|].
    simpl. destruct (class_match c x); [reflexivity|discriminate].
  - destruct min as [|min]; [reflexivity|].
    assert (Hs : exists u rs', s = u ++ rs' /\ forallb (class_match c) u = true
              /\ S min <= List.length u
              /\ k (p + List.length u) (last_rune pv u) rs' cs = Some l).
    { simpl in H.
      destruct g; [eapply rep_greedy_sound|eapply rep_lazy_sound]; eauto. }
    destruct Hs as (u & rs' & -> & Hu & Hm & _).
    destruct u as [|x u]; [simpl in Hm; lia|]. simpl in *.
    apply andb_prop in Hu. destruct Hu as [-> _]. reflexivity.
  - destruct r1; try (simpl in H; eapply IH1; exact H); try reflexivity.
    + simpl in H. destruct s as [|x s]; [discriminate|].
      cbn [lead prefix_ok]. destruct (class_match c x); [|discriminate].
      eapply IH2; exact H.
    + simpl in H. cbn [lead].
      destruct (xorb (word_before pv) (word_after s)); [|discriminate].
      eapply IH2; exact H.
Qed.

Lemma kw_prefix_split : forall (kw s s1 : gostring),
  kw_prefix kw s = Some s1 -> exists k, s = k ++ s1 /\ map fold_lower k = kw.
Proof.
  induction kw as [|a kw IH]; intros s s1 H.
  - simpl in H. injection H as ->. exists []. auto.
  - destruct s as [|x s]; [discriminate|]. simpl in H.
    destruct (Z.eqb_spec (fold_lower x) a) as [E|E]; [|discriminate].
    apply IH in H. destruct H as (k & -> & Hk).
    exists (x :: k). simpl. rewrite E, Hk. auto.
Qed.

Lemma take_spaces_all (s : gostring) : forallb is_space (take_spaces s) = true.
Proof.
  induction s as [|x s IH]; simpl; auto.
  destruct (is_space x) eqn:E; simpl; auto. rewrite E. auto.
Qed.

Lemma headed_split (kw : string) (s : gostring) :
  headed kw s = true ->
  exists w k y rest, s = w ++ k ++ y :: rest
    /\ forallb is_space w = true /\ spelled kw k /\ is_space y = true.
Proof.
  unfold headed. intros H.
  destruct (kw_prefix (runes kw) (skip_spaces s)) as [s1|] eqn:E;
    [|discriminate].
  apply kw_prefix_split in E. destruct E as (k & E & Hk).
  destruct s1 as [|y rest]; [discriminate|]. simpl in H.
  exists (take_spaces s), k, y, rest.
  rewrite <- E, take_skip_spaces. repeat split; auto. apply take_spaces_all.
Qed.

Lemma headed_build (kw : string) (w k : gostring) (y : rune) (rest : gostring) :
  good_keyword kw = true ->
  forallb is_space w = true -> spelled kw k -> is_space y = true ->
  headed kw (w ++ k ++ y :: rest) = true.
Proof.
  intros Hg Hw Hk Hy. unfold headed.
  rewrite skip_spaces_app by exact Hw.
  pose proof (spelled_head kw k (y :: rest) Hg Hk) as Hh.
  destruct (k ++ y :: rest) as [|z t] eqn:E.
  - destruct k; discriminate.
  - cbn [skip_spaces]. rewrite Hh, <- E.
    rewrite (spelled_prefix _ _ _ Hk). exact Hy.
Qed.

Lemma app_split (A : Type) : forall (a b pre : list A) (x : A) (t : list A),
  a ++ b = pre ++ x :: t ->
  (exists a2, a = pre ++ x :: a2 /\ t = a2 ++ b)
  \/ (exists p2, pre = a ++ p2 /\ b = p2 ++ x :: t).
Proof.
  induction a as [|z a IH]; intros b pre x t H.
  - right. exists pre. auto.
  - destruct pre as [|q pre].
    + simpl in H. injection H as -> <-. left. exists a. auto.
    + simpl in H. injection H as -> H. apply IH in H.
      destruct H as [(a2 & -> & ->)|(p2 & -> & ->)].
      * left. exists a2. auto.
      * right. exists p2. auto.
Qed.

(** Where a match can start in the head of a statement: in the whitespace,
    in the keyword, or at the whitespace after the keyword. *)
Lemma head_split (w k : gostring) (y : rune) (pre : gostring) (x : rune)
      (t : gostring) :
  w ++ k ++ [y] = pre ++ x :: t ->
  (exists w2, w = pre ++ x :: w2 /\ t = w2 ++ k ++ [y])
  \/ (exists k1 k2, pre = w ++ k1 /\ k = k1 ++ x :: k2 /\ t = k2 ++ [y])
  \/ (pre = w ++ k /\ x = y /\ t = []).
Proof.
  intros H. apply app_split in H.
  destruct H as [(w2 & -> & ->)|(p2 & -> & H)]; [left; eauto|].
  right. apply app_split in H.
  destruct H as [(k2 & -> & ->)|(p3 & -> & H)]; [left; eauto|].
  right. destruct p3 as [|z p3].
  - simpl in H. injection H as <- <-. rewrite app_nil_r. auto.
  - simpl in H. injection H as _ H. destruct p3; discriminate.
Qed.

(** A rule keeps the first keyword if every match that starts in the head
    of the statement puts the keyword back. *)
Lemma keeps_intro (kw : string) (rule : regexpMap) :
  good_keyword kw = true ->
  (forall w k y rest pre x t l tail,
     forallb is_space w = true -> spelled kw k -> is_space y = true ->
     w ++ k ++ [y] = pre ++ x :: t ->
     m (prog (r rule)) (List.length pre) (last_rune None pre)
       (x :: t ++ rest) (repeat None (S (numSubexp (r rule))))
       (accept (List.length pre)) = Some l ->
     headed kw (pre ++ expand 0 (runes (replacement rule))
                         (w ++ k ++ y :: rest) l ++ tail) = true) ->
  keeps kw rule.
Proof.
  intros Hg Hnear s Hs.
  destruct (headed_split kw s Hs) as (w & k & y & rest & E & Hw & Hk & Hy).
  unfold process.
  destruct (ReplaceAllString_cases (r rule) s (replacement rule))
    as [[_ ->]|(a0 & a1 & t1 & tail & Hd & _ & _ & ->)]; [exact Hs|].
  unfold doExecute in Hd. cbn [rune_before skipn] in Hd.
  apply search_sound in Hd. destruct Hd as (pre & rs1 & Es & Hm).
  cbn [Nat.add] in Hm.
  assert (Ea : a0 = List.length pre).
  { pose proof Hm as Hm'. apply m_sound in Hm'.
    destruct Hm' as (u & rs' & cs' & _ & _ & _ & N & Hacc).
    unfold accept in Hacc. injection Hacc as Hacc.
    destruct cs' as [|c0 cs']; [simpl in N; discriminate|].
    simpl in Hacc. injection Hacc as Hacc _. congruence. }
  subst a0. rewrite Es at 1. rewrite firstn_exact.
  assert (Ex : (w ++ k ++ [y]) ++ rest = pre ++ rs1).
  { rewrite <- Es, E, <- !app_assoc. reflexivity. }
  destruct rs1 as [|x rs1].
  - rewrite app_nil_r in Ex. subst pre. rewrite <- !app_assoc. cbn [app].
    apply headed_build; auto.
  - apply app_split in Ex. destruct Ex as [(t & Ex & ->)|(p2 & -> & _)].
    + rewrite E. eapply Hnear; eauto.
    + rewrite <- !app_assoc. cbn [app]. apply headed_build; auto.
Qed.

Lemma spelled_lower (kw : string) (k1 : gostring) (x : rune) (k2 : gostring) :
  good_keyword kw = true -> spelled kw (k1 ++ x :: k2) ->
  is_lower (fold_lower x) = true.
Proof.
  intros Hg Hk. pose proof (good_keyword_lower kw Hg) as Hl.
  unfold spelled in Hk. rewrite <- Hk, map_app, forallb_app in Hl.
  apply andb_prop in Hl. destruct Hl as [_ Hl]. simpl in Hl.
  apply andb_prop in Hl. destruct Hl as [Hl _]. exact Hl.
Qed.

Lemma no_pair_spec (a b : rune) : forall l1 l3 : gostring,
  no_pair a b (l1 ++ a :: b :: l3) = false.
Proof.
  induction l1 as [|x l1 IH]; intros l3.
  - cbn [app no_pair]. rewrite !Z.eqb_refl. reflexivity.
  - cbn [app no_pair]. rewrite IH. apply andb_false_r.
Qed.

Lemma lit_fold (a : ascii) (x : rune) :
  is_lower (rune_of_ascii a) = true -> class_match (lit true a) x = true ->
  fold_lower x = rune_of_ascii a.
Proof.
  intros Ha H. rewrite lit_match in H by exact Ha. apply Z.eqb_eq. exact H.
Qed.

Lemma space_not_letter (x a : rune) :
  is_space x = true -> is_lower a = true -> fold_lower x = a -> False.
Proof.
  intros Hx Ha E. pose proof (fold_lower_space x a Hx Ha) as H.
  rewrite E, Z.eqb_refl in H. discriminate.
Qed.

Lemma space_in (w pre : gostring) (x : rune) (w2 : gostring) :
  forallb is_space w = true -> w = pre ++ x :: w2 ->
  is_space x = true /\ forallb is_space w2 = true.
Proof.
  intros Hw ->. rewrite forallb_app in Hw. apply andb_prop in Hw.
  destruct Hw as [_ Hw]. simpl in Hw. apply andb_prop in Hw. exact Hw.
Qed.

(** A rule whose matches start with two letters that the keyword does not
    hold in a row finds no match in the head of the statement. *)
Lemma keeps_two (kw : string) (rule : regexpMap) (a b : ascii) :
  good_keyword kw = true ->
  firstn 2 (lead (prog (r rule))) = [lit true a; lit true b] ->
  is_lower (rune_of_ascii a) = true -> is_lower (rune_of_ascii b) = true ->
  no_pair (rune_of_ascii a) (rune_of_ascii b) (runes kw) = true ->
  keeps kw rule.
Proof.
  intros Hg Hlead2 Ha Hb Hnp.
  assert (Hlead : exists tl,
             lead (prog (r rule)) = lit true a :: lit true b :: tl).
  { destruct (lead (prog (r rule))) as [|c1 [|c2 tl]]; try discriminate.
    injection Hlead2 as -> ->. eauto. }
  destruct Hlead as (tl & Hlead).
  apply keeps_intro; [exact Hg|].
  intros w k y rest pre x t l tail Hw Hk Hy Hsplit Hm. exfalso.
  apply lead_sound in Hm. rewrite Hlead in Hm. cbn [prefix_ok] in Hm.
  apply andb_prop in Hm. destruct Hm as [Hx Ht].
  apply (lit_fold a x Ha) in Hx.
  destruct (head_split _ _ _ _ _ _ Hsplit)
    as [(w2 & Ew & _)|[(k1 & k2 & _ & Ek & ->)|(_ & -> & _)]].
  - destruct (space_in _ _ _ _ Hw Ew) as [Sx _].
    exact (space_not_letter x _ Sx Ha Hx).
  - destruct k2 as [|x2 k3]; cbn [app] in Ht.
    + apply andb_prop in Ht. destruct Ht as [Ht _].
      apply (lit_fold b y Hb) in Ht. exact (space_not_letter y _ Hy Hb Ht).
    + apply andb_prop in Ht. destruct Ht as [Ht _].
      apply (lit_fold b x2 Hb) in Ht.
      unfold spelled in Hk. rewrite Ek, map_app in Hk. cbn [map] in Hk.
      rewrite Hx, Ht in Hk. rewrite <- Hk, no_pair_spec in Hnp. discriminate.
  - exact (space_not_letter y _ Hy Ha Hx).
Qed.

(** A rule whose matches start with a rune that is no letter and whose
    template starts with a blank keeps the keyword, provided it finds no
    match that starts in the whitespace in front of the keyword. *)
Lemma keeps_blank (kw : string) (rule : regexpMap) (c : cclass)
      (tl : list cclass) (tpl : gostring) :
  good_keyword kw = true ->
  lead (prog (r rule)) = c :: tl ->
  (forall x, is_lower (fold_lower x) = true -> class_match c x = false) ->
  runes (replacement rule) = 32%Z :: tpl ->
  (forall w pre x w2 k y rest l,
     forallb is_space w = true -> w = pre ++ x :: w2 -> spelled kw k ->
     is_space y = true ->
     m (prog (r rule)) (List.length pre) (last_rune None pre)
       (x :: (w2 ++ k ++ [y]) ++ rest)
       (repeat None (S (numSubexp (r rule)))) (accept (List.length pre))
     = Some l -> False) ->
  keeps kw rule.
Proof.
  intros Hg Hlead Hc Htpl Hdead. apply keeps_intro; [exact Hg|].
  intros w k y rest pre x t l tail Hw Hk Hy Hsplit Hm.
  destruct (head_split _ _ _ _ _ _ Hsplit)
    as [(w2 & Ew & ->)|[(k1 & k2 & _ & Ek & ->)|(-> & -> & ->)]].
  - exfalso. eapply Hdead; eauto.
  - exfalso. apply lead_sound in Hm. rewrite Hlead in Hm.
    cbn [prefix_ok] in Hm. apply andb_prop in Hm. destruct Hm as [Hx _].
    rewrite Hc in Hx; [discriminate|].
    rewrite Ek in Hk. eapply spelled_lower; eauto.
  - rewrite Htpl. cbn [expand]. change (32 =? 36)%Z with false. cbv iota.
    rewrite <- !app_assoc. cbn [app]. apply headed_build; auto.
Qed.

Lemma rlikeRule_prog :
  prog (r rlikeRule) = cat_of (spaces 1 :: keyword "rlike" ++ [spaces 1]).
Proof. vm_compute. reflexivity. Qed.

Lemma fold_lower_idem (x : rune) : fold_lower (fold_lower x) = fold_lower x.
Proof.
  unfold fold_lower, is_upper, in_range. decide_cmp; try reflexivity; try lia.
Qed.

(** A keyword that a pattern word is no prefix of, followed by whitespace:
    the pattern word is not found there, however the keyword is spelled. *)
Lemma kw_prefix_dead : forall (p k : gostring) (y : rune) (rest : gostring),
  forallb is_lower p = true -> is_space y = true ->
  kw_prefix p (map fold_lower k) = None ->
  kw_prefix p (k ++ y :: rest) = None.
Proof.
  induction p as [|a p IH]; intros k y rest Hp Hy H; [discriminate|].
  simpl in Hp. apply andb_prop in Hp. destruct Hp as [Ha Hp].
  destruct k as [|x k].
  - cbn [app]. rewrite kw_prefix_cons, (fold_lower_space y a Hy Ha).
    reflexivity.
  - cbn [app map] in *. rewrite kw_prefix_cons in *.
    rewrite fold_lower_idem in H.
    destruct (fold_lower x =? a)%Z; [|reflexivity]. apply IH; auto.
Qed.

(** Whitespace in front of a keyword that [rlike] is no prefix of is not
    the start of [ rlike ]. *)
Lemma rlike_dead (kw : string) (w pre : gostring) (x : rune)
      (w2 k : gostring) (y : rune) (rest : gostring) (l : loc) :
  good_keyword kw = true ->
  kw_prefix (runes "rlike") (runes kw) = None ->
  forallb is_space w = true -> w = pre ++ x :: w2 -> spelled kw k ->
  is_space y = true ->
  m (prog (r rlikeRule)) (List.length pre) (last_rune None pre)
    (x :: (w2 ++ k ++ [y]) ++ rest)
    (repeat None (S (numSubexp (r rlikeRule)))) (accept (List.length pre))
  = Some l -> False.
Proof.
  intros Hg Hr Hw Ew Hk Hy Hm.
  destruct (space_in _ _ _ _ Hw Ew) as [Sx Sw2].
  rewrite rlikeRule_prog, m_cat_of_cons in Hm. unfold spaces at 1 in Hm.
  cbn [m] in Hm. rewrite rep_greedy_spaces in Hm.
  - destruct (1 <=? _); [|discriminate].
    change (x :: (w2 ++ k ++ [y]) ++ rest)
      with ((x :: w2 ++ k ++ [y]) ++ rest) in Hm.
    rewrite app_comm_cons, <- app_assoc in Hm.
    rewrite skip_spaces_app in Hm by (simpl; rewrite Sx; exact Sw2).
    rewrite <- app_assoc in Hm. cbn [app] in Hm.
    pose proof (spelled_head kw k (y :: rest) Hg Hk) as Hh.
    assert (Es : skip_spaces (k ++ y :: rest) = k ++ y :: rest).
    { destruct (k ++ y :: rest) as [|z t]; [reflexivity|].
      cbn [skip_spaces]. rewrite Hh. reflexivity. }
    rewrite Es in Hm.
    unfold keyword in Hm. rewrite m_keyword in Hm by reflexivity.
    unfold spelled in Hk.
    change (map rune_of_ascii (list_ascii_of_string "rlike"))
      with (runes "rlike") in Hm.
    rewrite kw_prefix_dead in Hm; [discriminate|reflexivity|exact Hy|].
    rewrite Hk. exact Hr.
  - intros p pv z rs Hz. unfold keyword. rewrite m_keyword by reflexivity.
    cbn [list_ascii_of_string]. rewrite kw_prefix_space; auto.
Qed.

Lemma dot_class_match (x : rune) : class_match dot_class x = (x =? 46)%Z.
Proof.
  unfold dot_class, lit. change (rune_of_ascii ".") with 46%Z.
  class_tac.
Qed.

Lemma letter_not_dot (x : rune) :
  is_lower (fold_lower x) = true -> class_match dot_class x = false.
Proof.
  rewrite dot_class_match.
  destruct (Z.eqb_spec x 46) as [->|]; [discriminate|reflexivity].
Qed.

Lemma letter_not_op (x : rune) :
  is_lower (fold_lower x) = true -> class_match op_class x = false.
Proof.
  intros H. rewrite op_class_match.
  rewrite (fold_not_space x _ eq_refl H), orb_false_r.
  destruct (Z.eqb_spec x 61) as [->|]; [discriminate|].
  destruct (Z.eqb_spec x 60) as [->|]; [discriminate|].
  destruct (Z.eqb_spec x 62) as [->|]; [discriminate|]. reflexivity.
Qed.

Lemma letter_not_blank (x : rune) :
  is_lower (fold_lower x) = true -> class_match space_class x = false.
Proof.
  intros H. rewrite space_class_match. exact (fold_not_space x _ eq_refl H).
Qed.

(** Whitespace in front of a keyword is not the start of date arithmetic
    on a qualified column: the keyword holds no dot. *)
Lemma interval_dead (kw : string) (sign : ascii) (w pre : gostring) (x : rune)
      (w2 k : gostring) (y : rune) (rest : gostring) (l : loc) :
  is_sign sign -> good_keyword kw = true ->
  forallb is_space w = true -> w = pre ++ x :: w2 -> spelled kw k ->
  is_space y = true ->
  m (prog (r (intervalRule sign))) (List.length pre) (last_rune None pre)
    (x :: (w2 ++ k ++ [y]) ++ rest)
    (repeat None (S (numSubexp (r (intervalRule sign)))))
    (accept (List.length pre))
  = Some l -> False.
Proof.
  intros Hs Hg Hw Ew Hk Hy Hm.
  destruct (space_in _ _ _ _ Hw Ew) as [Sx Sw2].
  rewrite (intervalRule_prog sign Hs), m_cat_of_cons in Hm. cbn [m] in Hm.
  destruct (class_match op_class x); [|discriminate].
  rewrite m_cat_of_cons in Hm. unfold interval_ref in Hm. cbn [m] in Hm.
  rewrite m_cat_of_cons in Hm. cbn [m] in Hm.
  apply rep_greedy_sound in Hm.
  destruct Hm as (u & rs' & E & Hu & Hl & Hk').
  destruct w2 as [|x' w3].
  - cbn [app] in E. rewrite <- app_assoc in E. cbn [app] in E.
    destruct (split_run _ _ _ _ _ _ E Hu eq_refl Hy) as (v & Ek & ->).
    rewrite m_cat_of_cons in Hk'. cbn [m] in Hk'.
    destruct v as [|z v]; cbn [app] in Hk'.
    + rewrite dot_class_match in Hk'.
      destruct (Z.eqb_spec y 46) as [->|]; discriminate.
    + rewrite letter_not_dot in Hk'; [discriminate|].
      rewrite Ek in Hk. eapply spelled_lower; eauto.
  - destruct u as [|z u]; [simpl in Hl; lia|].
    cbn [app] in E. injection E as <- _. simpl in Hu, Sw2.
    apply andb_prop in Hu. destruct Hu as [Hu _].
    apply andb_prop in Sw2. destruct Sw2 as [Sx' _].
    rewrite nonspace_class_match, Sx' in Hu. discriminate.
Qed.

Lemma keeps_interval (kw : string) (sign : ascii) :
  is_sign sign -> good_keyword kw = true -> keeps kw (intervalRule sign).
Proof.
  intros Hs Hg.
  assert (Ht : exists tpl,
             runes (replacement (intervalRule sign)) = 32%Z :: tpl).
  { destruct Hs as [->| ->]; eexists; reflexivity. }
  destruct Ht as (tpl & Ht).
  apply (keeps_blank kw _ op_class [] tpl); auto.
  - destruct Hs as [->| ->]; vm_compute; reflexivity.
  - apply letter_not_op.
  - intros. eapply interval_dead; eauto.
Qed.

Lemma keeps_rlike (kw : string) :
  good_keyword kw = true ->
  kw_prefix (runes "rlike") (runes kw) = None ->
  keeps kw rlikeRule.
Proof.
  intros Hg Hr.
  apply (keeps_blank kw _ space_class [] (runes "like ")); auto.
  - apply letter_not_blank.
  - intros. eapply rlike_dead; eauto.
Qed.

Lemma create_index_expand (src : gostring) (l : loc) :
  expand 0 (runes (replacement createIndexRule)) src l
  = runes "create" ++ 32%Z :: runes "index "
      ++ group_text src l 1 ++ group_text src l 2 ++ [].
Proof. vm_compute. reflexivity. Qed.

(** The rule for CREATE INDEX with a prefix length may match at the very
    keyword of a CREATE statement; its template writes the keyword again. *)
Lemma keeps_create_index : keeps "create" createIndexRule.
Proof.
  apply keeps_intro; [reflexivity|].
  intros w k y rest pre x t l tail Hw Hk Hy Hsplit Hm.
  pose proof Hm as Hl. apply lead_sound in Hl.
  assert (Hx : fold_lower x = 99%Z).
  { assert (E : exists tl, lead (prog (r createIndexRule)) = lit true "c" :: tl)
      by (eexists; vm_compute; reflexivity).
    destruct E as (tl & E). rewrite E in Hl. cbn [prefix_ok] in Hl.
    apply andb_prop in Hl. destruct Hl as [Hl _].
    apply (lit_fold "c" x eq_refl) in Hl. exact Hl. }
  destruct (head_split _ _ _ _ _ _ Hsplit)
    as [(w2 & Ew & _)|[(k1 & k2 & -> & Ek & _)|(_ & -> & _)]].
  - exfalso. destruct (space_in _ _ _ _ Hw Ew) as [Sx _].
    exact (space_not_letter x 99%Z Sx eq_refl Hx).
  - destruct k1 as [|z k1].
    + rewrite app_nil_r, create_index_expand, <- !app_assoc.
      apply headed_build; auto. reflexivity.
    + exfalso. unfold spelled in Hk. rewrite Ek in Hk.
      change (runes "create") with [99; 114; 101; 97; 116; 101]%Z in Hk.
      cbn [app map] in Hk. injection Hk as _ Hk.
      assert (Hin : In (fold_lower x) (map fold_lower (k1 ++ x :: k2))).
      { apply in_map. apply in_elt. }
      rewrite Hk, Hx in Hin. simpl in Hin.
      repeat (destruct Hin as [Hin|Hin]; [discriminate|]). exact Hin.
  - exfalso. exact (space_not_letter y 99%Z Hy eq_refl Hx).
Qed.

Ltac two_letters :=
  first [ solve [apply (keeps_two _ _ "n" "o");
                 [reflexivity|vm_compute; reflexivity| reflexivity..]]
        | solve [apply (keeps_two _ _ "u" "n");
                 [reflexivity|vm_compute; reflexivity| reflexivity..]]
        | solve [apply (keeps_two _ _ "c" "a");
                 [reflexivity|vm_compute; reflexivity| reflexivity..]]
        | solve [apply (keeps_two _ _ "c" "o");
                 [reflexivity|vm_compute; reflexivity| reflexivity..]]
        | solve [apply (keeps_two _ _ "c" "r");
                 [reflexivity|vm_compute; reflexivity| reflexivity..]] ].

Ltac keeps_general last :=
  unfold generalConversions;
  repeat match goal with
         | |- Forall _ (_ :: _) => apply Forall_cons
         | |- Forall _ [] => apply Forall_nil
         end;
  [> two_letters | two_letters | two_letters | two_letters
   | apply (keeps_interval _ "-"); [left; reflexivity|reflexivity]
   | apply (keeps_interval _ "+"); [right; reflexivity|reflexivity]
   | two_letters | two_letters | two_letters | two_letters
   | two_letters | two_letters
   | apply keeps_rlike; reflexivity
   | last ].

(** Every general rule keeps the first keyword of a CREATE, DROP, INSERT or
    REPLACE statement. *)
Lemma general_keeps (kw : string) :
  In kw ["create"; "drop"; "insert"; "replace"] ->
  Forall (keeps kw) generalConversions.
Proof.
  intros [<-|[<-|[<-|[<-|[]]]]].
  - keeps_general ltac:(apply keeps_create_index).
  - keeps_general two_letters.
  - keeps_general two_letters.
  - keeps_general two_letters.
Qed.

Lemma applyConversions_keeps (kw : string) (rules : list regexpMap) :
  Forall (keeps kw) rules ->
  forall s, headed kw s = true -> headed kw (applyConversions s rules) = true.
Proof.
  intros H. induction H as [|rule rules Hr _ IH]; intros s Hs; [exact Hs|].
  cbn [applyConversions]. apply IH. apply Hr. exact Hs.
Qed.

Lemma headed_not_insert (kw : string) (s : gostring) :
  kw = "create" \/ kw = "drop" -> headed kw s = true -> IsInsert s = false.
Proof.
  intros Hkw. rewrite IsInsert_spec. unfold headed, starts_with.
  cbn [after_keywords orb].
  change (runes "insert") with [105; 110; 115; 101; 114; 116]%Z.
  change (runes "replace") with [114; 101; 112; 108; 97; 99; 101]%Z.
  destruct (skip_spaces s) as [|x t]; [destruct Hkw as [->| ->]; discriminate|].
  rewrite !kw_prefix_cons.
  destruct Hkw as [->| ->].
  - change (runes "create") with [99; 114; 101; 97; 116; 101]%Z.
    rewrite kw_prefix_cons.
    destruct (Z.eqb_spec (fold_lower x) 99) as [->|]; [|discriminate].
    reflexivity.
  - change (runes "drop") with [100; 114; 111; 112]%Z.
    rewrite kw_prefix_cons.
    destruct (Z.eqb_spec (fold_lower x) 100) as [->|]; [|discriminate].
    reflexivity.
Qed.

Lemma headed_insert (kw : string) (s : gostring) :
  kw = "insert" \/ kw = "replace" -> headed kw s = true -> IsInsert s = true.
Proof.
  intros Hkw. rewrite IsInsert_spec. unfold headed, starts_with.
  cbn [after_keywords orb].
  destruct Hkw as [->| ->].
  - destruct (kw_prefix (runes "insert") (skip_spaces s)); [|discriminate].
    reflexivity.
  - destruct (kw_prefix (runes "replace") (skip_spaces s)); [|discriminate].
    intros _. apply orb_true_r.
Qed.

Lemma index_headed (s : gostring) :
  (IsCreateIndex s = true -> headed "create" s = true)
  /\ (IsDropIndex s = true -> headed "drop" s = true).
Proof.
  rewrite IsCreateIndex_spec, IsDropIndex_spec. unfold starts_with, headed.
  cbn [after_keywords orb]. split.
  - destruct (kw_prefix (runes "create") (skip_spaces s)) as [s1|];
      [|discriminate].
    destruct (spaced s1); [reflexivity|discriminate].
  - destruct (kw_prefix (runes "drop") (skip_spaces s)) as [s1|];
      [|discriminate].
    destruct (spaced s1); [reflexivity|discriminate].
Qed.

End head_facts.

(** X8.  A CREATE INDEX, CREATE UNIQUE INDEX or DROP INDEX statement gets
    the general rules and nothing else: it is neither a CREATE TABLE nor an
    ALTER TABLE statement, and whatever the general rules replace in it, the
    result still starts with CREATE or DROP, so that [IsInsert] rejects it
    and the insert rules are not applied. *)
Theorem X8_index_statements_get_general_rules (statement : gostring) :
  IsCreateIndex statement = true \/ IsDropIndex statement = true ->
  IsInsert (applyConversions statement generalConversions) = false
  /\ ToSqlite3Dialect statement
     = applyConversions statement generalConversions.
Proof.
  intros H.
  assert (Hk : exists kw, (kw = "create" \/ kw = "drop")
                          /\ headed kw statement = true).
  { destruct (index_headed statement) as [Hc Hd].
    destruct H as [H|H]; [exists "create"|exists "drop"]; auto. }
  destruct Hk as (kw & Hkw & Hh).
  assert (Hi : IsInsert (applyConversions statement generalConversions)
               = false).
  { apply (headed_not_insert kw _ Hkw).
    apply applyConversions_keeps; [apply general_keeps|exact Hh].
    destruct Hkw as [->| ->]; simpl; auto. }
  split; [exact Hi|].
  pose proof (classify_exclusive statement) as E. unfold classify in E.
  unfold ToSqlite3Dialect. rewrite Hi.
  destruct (IsCreateTable statement), (IsAlterTable statement),
    (IsInsert statement), (IsCreateIndex statement), (IsDropIndex statement);
    cbn in E; try lia; try reflexivity;
    destruct H; discriminate.
Qed.

Lemma X8_index_statements_get_general_rules_witness :
  IsInsert (applyConversions (runes "CREATE INDEX i ON t (name(10), age)")
              generalConversions) = false
  /\ ToSqlite3Dialect (runes "CREATE INDEX i ON t (name(10), age)")
     = applyConversions (runes "CREATE INDEX i ON t (name(10), age)")
         generalConversions.
Proof.
  apply (X8_index_statements_get_general_rules
           (runes "CREATE INDEX i ON t (name(10), age)")).
  left. vm_compute. reflexivity.
Defined.

(** X9.  A statement that starts, after optional whitespace, with INSERT
    or REPLACE in any letter case followed by whitespace gets both lists:
    whatever the general rules replace in it, their output still starts
    with that keyword, so that [IsInsert] accepts it and the insert rules
    are applied to it. *)
Theorem X9_insert_statements_get_both_lists (ws k : gostring) (y : rune)
        (rest : gostring) :
  forallb is_space ws = true ->
  spelled "insert" k \/ spelled "replace" k -> is_space y = true ->
  IsInsert (applyConversions (ws ++ k ++ y :: rest) generalConversions) = true
  /\ ToSqlite3Dialect (ws ++ k ++ y :: rest)
     = applyConversions
         (applyConversions (ws ++ k ++ y :: rest) generalConversions)
         insertConversions.
Proof.
  intros Hws Hk Hy.
  assert (Hh : exists kw, (kw = "insert" \/ kw = "replace")
                          /\ headed kw (ws ++ k ++ y :: rest) = true).
  { destruct Hk as [Hk|Hk]; [exists "insert"|exists "replace"];
      (split; [auto|apply headed_build; auto]). }
  destruct Hh as (kw & Hkw & Hh).
  assert (Hi : IsInsert (applyConversions (ws ++ k ++ y :: rest)
                           generalConversions) = true).
  { apply (headed_insert kw _ Hkw).
    apply applyConversions_keeps; [apply general_keeps|exact Hh].
    destruct Hkw as [->| ->]; simpl; auto. }
  split; [exact Hi|].
  pose proof (headed_insert kw _ Hkw Hh) as Hs.
  pose proof (classify_exclusive (ws ++ k ++ y :: rest)) as E.
  unfold classify in E. rewrite Hs in E.
  unfold ToSqlite3Dialect, ToSqlite3Insert. rewrite Hi.
  destruct (IsCreateTable (ws ++ k ++ y :: rest)),
    (IsAlterTable (ws ++ k ++ y :: rest)),
    (IsCreateIndex (ws ++ k ++ y :: rest)),
    (IsDropIndex (ws ++ k ++ y :: rest));
    cbn in E; try lia; reflexivity.
Qed.

Lemma X9_insert_statements_get_both_lists_witness :
  IsInsert
    (applyConversions
       (runes " " ++ runes "Insert" ++ 9%Z :: runes "into t values (now())")
       generalConversions) = true
  /\ ToSqlite3Dialect
       (runes " " ++ runes "Insert" ++ 9%Z :: runes "into t values (now())")
     = applyConversions
         (applyConversions
            (runes " " ++ runes "Insert" ++ 9%Z
             :: runes "into t values (now())")
            generalConversions)
         insertConversions.
Proof.
  apply (X9_insert_statements_get_both_lists (runes " ") (runes "Insert") 9%Z
           (runes "into t values (now())")).
  - reflexivity.
  - left. reflexivity.
  - reflexivity.
Defined.

(** ** The skip comment, however it is spelled *)

Module Import lang_facts.
Import regexp.

Lemma lit_match_plain (a : ascii) (x : rune) :
  plain a = true ->
  class_match (lit true a) x = (fold_lower x =? rune_of_ascii a)%Z.
Proof.
  unfold plain, lit, fold_lower. generalize (rune_of_ascii a). intros y H.
  apply andb_prop in H. destruct H as [H1 H2].
  apply Z.ltb_lt in H2. unfold is_upper, in_range in H1.
  apply negb_true_iff in H1. apply andb_false_iff in H1.
  rewrite !Z.leb_gt in H1.
  class_tac.
Qed.

Lemma lang_cat_cons (r1 : regex) (rs : list regex) pv (u rs' : gostring) :
  lang (cat_of (r1 :: rs)) pv u rs'
  <-> exists u1 u2, u = u1 ++ u2 /\ lang r1 pv u1 (u2 ++ rs')
                    /\ lang (cat_of rs) (last_rune pv u1) u2 rs'.
Proof.
  destruct rs as [|r2 rs]; [|reflexivity].
  cbn [cat_of lang]. split.
  - intros H. exists u, []. rewrite !app_nil_r. auto.
  - intros (u1 & u2 & -> & H & ->). rewrite app_nil_r in *. exact H.
Qed.

Lemma lang_cat_app (l1 l2 : list regex) : forall pv (u rs' : gostring),
  lang (cat_of (l1 ++ l2)) pv u rs'
  <-> exists u1 u2, u = u1 ++ u2 /\ lang (cat_of l1) pv u1 (u2 ++ rs')
                    /\ lang (cat_of l2) (last_rune pv u1) u2 rs'.
Proof.
  induction l1 as [|r1 l1 IH]; intros pv u rs'.
  - cbn [app cat_of lang]. split.
    + intros H. exists [], u. auto.
    + intros (u1 & u2 & -> & -> & H). exact H.
  - rewrite <- app_comm_cons, lang_cat_cons. split.
    + intros (u1 & u2 & -> & H1 & H2). apply IH in H2.
      destruct H2 as (v1 & v2 & -> & H2 & H3).
      exists (u1 ++ v1), v2. split; [apply app_assoc|].
      split.
      * apply lang_cat_cons. exists u1, v1. rewrite <- app_assoc in H1. auto.
      * rewrite last_rune_app. exact H3.
    + intros (u1 & u2 & -> & H1 & H2). apply lang_cat_cons in H1.
      destruct H1 as (v1 & v2 & -> & H1 & H3).
      exists v1, (v2 ++ u2).
      split; [symmetry; apply app_assoc|].
      split; [rewrite <- app_assoc; exact H1|].
      apply IH. exists v2, u2. rewrite last_rune_app in H2. auto.
Qed.

(** The texts a keyword of a pattern matches are its spellings. *)
Lemma lang_keyword : forall (kw : list ascii) pv (u rs' : gostring),
  forallb plain kw = true ->
  lang (cat_of (map ci kw)) pv u rs'
  <-> map fold_lower u = map rune_of_ascii kw.
Proof.
  induction kw as [|a kw IH]; intros pv u rs' H.
  - cbn [map cat_of lang]. split; [intros ->; reflexivity|].
    destruct u; [reflexivity|discriminate].
  - simpl in H. apply andb_prop in H. destruct H as [Ha H].
    cbn [map]. rewrite lang_cat_cons. unfold ci at 1. cbn [lang]. split.
    + intros (u1 & u2 & -> & (x & -> & Hx) & H2).
      rewrite lit_match_plain in Hx by exact Ha. apply Z.eqb_eq in Hx.
      apply IH in H2; [|exact H]. cbn [app map]. congruence.
    + intros E. destruct u as [|x u]; [discriminate|].
      cbn [map] in E. injection E as Hx Hu.
      exists [x], u. split; [reflexivity|]. split.
      * exists x. split; [reflexivity|].
        rewrite lit_match_plain by exact Ha. apply Z.eqb_eq. exact Hx.
      * apply IH; auto.
Qed.

Lemma lang_spaces (min : nat) pv (u rs' : gostring) :
  lang (spaces min) pv u rs'
  <-> forallb is_space u = true /\ min <= List.length u.
Proof.
  unfold spaces. cbn [lang].
  assert (E : forallb (class_match space_class) u = forallb is_space u).
  { induction u as [|x u IH]; simpl; auto.
    rewrite space_class_match, IH. reflexivity. }
  rewrite E. reflexivity.
Qed.

Lemma blank_iff (b : gostring) :
  blank b = true <-> forallb is_space b = true /\ 1 <= List.length b.
Proof.
  split; [apply blank_spaces|]. intros [H L]. unfold blank.
  rewrite H. destruct b; [simpl in L; lia|reflexivity].
Qed.

(** The texts between the two [[\s\S]+] of the skip rule. *)
Lemma lang_marker pv (mk rs' : gostring) :
  lang (cat_of marker_re) pv mk rs' <-> skip_comment mk.
Proof.
  unfold marker_re, skip_comment, keyword, spelled, runes.
  rewrite lang_cat_app. split.
  - intros (o & u2 & -> & Ho & H).
    apply lang_keyword in Ho; [|reflexivity].
    apply lang_cat_cons in H. destruct H as (b1 & u3 & -> & Hb1 & H).
    apply lang_spaces in Hb1. apply lang_cat_app in H.
    destruct H as (K & u4 & -> & HK & H).
    apply lang_keyword in HK; [|reflexivity].
    apply lang_cat_cons in H. destruct H as (b2 & c & -> & Hb2 & H).
    apply lang_spaces in Hb2. apply lang_keyword in H; [|reflexivity].
    exists b1, K, b2.
    assert (Eo : o = map rune_of_ascii (list_ascii_of_string "/*")).
    { destruct o as [|x1 [|x2 [|]]]; try discriminate.
      cbn [map list_ascii_of_string] in *. injection Ho as H1 H2.
      f_equal; [|f_equal].
      - clear - H1. unfold fold_lower, is_upper, in_range in H1.
        change (rune_of_ascii "/") with 47%Z in *.
        decide_cmp; lia.
      - clear - H2. unfold fold_lower, is_upper, in_range in H2.
        change (rune_of_ascii "*") with 42%Z in *.
        decide_cmp; lia. }
    assert (Ec : c = map rune_of_ascii (list_ascii_of_string "*/")).
    { destruct c as [|x1 [|x2 [|]]]; try discriminate.
      cbn [map list_ascii_of_string] in *. injection H as H1 H2.
      f_equal; [|f_equal].
      - clear - H1. unfold fold_lower, is_upper, in_range in H1.
        change (rune_of_ascii "*") with 42%Z in *.
        decide_cmp; lia.
      - clear - H2. unfold fold_lower, is_upper, in_range in H2.
        change (rune_of_ascii "/") with 47%Z in *.
        decide_cmp; lia. }
    subst o c. repeat split; auto; apply blank_iff; auto.
  - intros (b1 & K & b2 & -> & Hb1 & HK & Hb2).
    apply blank_iff in Hb1. apply blank_iff in Hb2.
    eexists _, _. split; [reflexivity|]. split.
    + apply lang_keyword; reflexivity.
    + apply lang_cat_cons. exists b1, (K ++ b2 ++ runes "*/").
      split; [reflexivity|]. split; [apply lang_spaces; exact Hb1|].
      apply lang_cat_app. exists K, (b2 ++ runes "*/").
      split; [reflexivity|]. split; [apply lang_keyword; [reflexivity|exact HK]|].
      apply lang_cat_cons. exists b2, (runes "*/").
      split; [reflexivity|]. split; [apply lang_spaces; exact Hb2|].
      apply lang_keyword; reflexivity.
Qed.

Lemma lang_any (min : nat) pv (u rs' : gostring) :
  lang (Repeat any_class min true) pv u rs' <-> min <= List.length u.
Proof. cbn [lang]. rewrite any_all. tauto. Qed.

(** What the skip rule matches: a text that holds the comment with
    something before it and something after it. *)
Lemma lang_skip pv (u rs' : gostring) :
  lang (prog (r skipRule)) pv u rs'
  <-> exists u1 mk u3, u = u1 ++ mk ++ u3 /\ u1 <> [] /\ skip_comment mk
                       /\ u3 <> [].
Proof.
  rewrite skipRule_prog. cbn [lang]. rewrite lang_cat_cons. split.
  - intros (u1 & u2 & -> & H1 & H). apply lang_any in H1.
    apply lang_cat_app in H. destruct H as (mk & u3 & -> & Hm & H3).
    apply lang_marker in Hm. cbn [cat_of] in H3. apply lang_any in H3.
    exists u1, mk, u3. repeat split; auto.
    + intros ->. simpl in H1. lia.
    + intros ->. simpl in H3. lia.
  - intros (u1 & mk & u3 & -> & H1 & Hm & H3).
    exists u1, (mk ++ u3). split; [reflexivity|]. split.
    + apply lang_any. apply nonempty_length. exact H1.
    + apply lang_cat_app. exists mk, u3. split; [reflexivity|]. split.
      * apply lang_marker. exact Hm.
      * cbn [cat_of]. apply lang_any. apply nonempty_length. exact H3.
Qed.

(** Whatever the spelling of the comment, the match is the whole text. *)
Lemma skipRule_match_any (T pre mk post : gostring) :
  T = pre ++ mk ++ post -> pre <> [] -> post <> [] -> skip_comment mk ->
  doExecute (r skipRule) T 0
  = Some [Some (0, List.length T); Some (0, List.length T)].
Proof.
  intros HT Hpre Hpost Hmk. unfold doExecute. cbn [rune_before skipn].
  rewrite skipRule_prog, skipRule_groups. apply search_here.
  cbn [m repeat]. rewrite m_cat_of_cons. cbn [m].
  apply rep_greedy_uniform.
  - intros u rs' l E _ H. rewrite m_cat_of_app in H.
    apply m_sound in H. destruct H as (u2 & rs2 & cs2 & -> & _ & C & _ & H).
    rewrite (C nocap_marker) in H. cbn [cat_of m] in H.
    destruct rs2 as [|y rs2]; [discriminate|].
    erewrite rep_greedy_any in H; [| cbn [List.length]; lia | reflexivity].
    injection H as <-. subst T.
    apply (f_equal (@List.length rune)) in E.
    rewrite !length_app in *. cbn [List.length] in E. cbn [set_nth Nat.add].
    rewrite E, Nat.add_assoc. reflexivity.
  - subst T. apply rep_greedy_complete.
    + apply any_all.
    + apply nonempty_length. exact Hpre.
    + rewrite <- (app_nil_r (mk ++ post)). apply m_complete.
      * apply lang_cat_app. exists mk, post. split; [reflexivity|]. split.
        -- apply lang_marker. exact Hmk.
        -- cbn [cat_of]. apply lang_any. apply nonempty_length. exact Hpost.
      * intros cs'. discriminate.
Qed.

(** The rule matches nowhere, or the text holds the comment. *)
Lemma skipRule_cases (T : gostring) :
  doExecute (r skipRule) T 0 = None
  \/ exists pre mk post, T = pre ++ mk ++ post /\ pre <> [] /\ post <> []
                          /\ skip_comment mk.
Proof.
  destruct (doExecute (r skipRule) T 0) as [l|] eqn:H; [right|left; reflexivity].
  unfold doExecute in H. cbn [rune_before skipn] in H.
  apply search_sound in H. destruct H as (pre0 & rs1 & -> & H).
  apply m_sound in H. destruct H as (u & rs' & cs' & -> & L & _).
  destruct (proj1 (lang_skip _ _ _) L) as (u1 & mk & u3 & -> & H1 & Hm & H3).
  exists (pre0 ++ u1), mk, (u3 ++ rs'). rewrite <- !app_assoc.
  repeat split; auto.
  - intros E. apply app_eq_nil in E. destruct E; auto.
  - intros E. apply app_eq_nil in E. destruct E; auto.
Qed.

Lemma skipRule_process_any (T pre mk post : gostring) :
  T = pre ++ mk ++ post -> pre <> [] -> post <> [] -> skip_comment mk ->
  process skipRule T = [].
Proof.
  intros HT Hpre Hpost Hmk. unfold process.
  rewrite (ReplaceAllString_one _ _ _ _ _ _
             (skipRule_match_any T pre mk post HT Hpre Hpost Hmk)).
  - rewrite skipn_all. reflexivity.
  - subst T. apply nonempty_length in Hpre. rewrite length_app. lia.
  - apply skipRule_end.
Qed.

End lang_facts.

(** X10.  The skip rule is all or nothing: it returns the empty text or
    its input.  It returns the empty text exactly when the input is empty
    or holds the comment -- its word in any letter case, any non-empty
    whitespace between the word and the comment signs -- with at least one
    rune before it and at least one after it. *)
Theorem X10_skip_rule_all_or_nothing (T : gostring) :
  nth_error createTableConversions 11 = Some skipRule
  /\ (process skipRule T = [] \/ process skipRule T = T)
  /\ (process skipRule T = []
      <-> T = []
          \/ exists pre mk post, T = pre ++ mk ++ post /\ pre <> []
                                  /\ post <> [] /\ skip_comment mk).
Proof.
  split; [reflexivity|].
  destruct (skipRule_cases T) as [Hn|(pre & mk & post & E & H1 & H3 & Hm)].
  - assert (Hp : process skipRule T = T).
    { unfold process. apply ReplaceAllString_no_match.
      unfold regexp.MatchString. rewrite Hn. reflexivity. }
    rewrite Hp. split; [right; reflexivity|]. split; [auto|].
    intros [->|(pre & mk & post & E & H1 & H3 & Hm)]; [reflexivity|].
    rewrite <- Hp. eapply skipRule_process_any; eauto.
  - rewrite (skipRule_process_any T pre mk post E H1 H3 Hm).
    split; [left; reflexivity|]. split; [|reflexivity].
    intros _. right. exists pre, mk, post. auto.
Qed.

Lemma X10_skip_rule_all_or_nothing_witness :
  process skipRule
    (runes "x" ++ (runes "/*" ++ [9%Z] ++ runes "SQLite3-Skip"
                   ++ [32%Z; 10%Z] ++ runes "*/") ++ runes "y") = [].
Proof.
  destruct (X10_skip_rule_all_or_nothing
              (runes "x" ++ (runes "/*" ++ [9%Z] ++ runes "SQLite3-Skip"
                             ++ [32%Z; 10%Z] ++ runes "*/") ++ runes "y"))
    as (_ & _ & _ & H).
  apply H. right.
  exists (runes "x"),
    (runes "/*" ++ [9%Z] ++ runes "SQLite3-Skip" ++ [32%Z; 10%Z] ++ runes "*/"),
    (runes "y").
  split; [reflexivity|]. split; [discriminate|]. split; [discriminate|].
  exists [9%Z], (runes "SQLite3-Skip"), [32%Z; 10%Z].
  repeat split; reflexivity.
Defined.

(** X11.  A CREATE TABLE or ALTER TABLE statement is suppressed whatever
    the spelling of the comment: it is translated to the empty statement
    when the text that reaches the skip rule holds the comment, in any
    letter case and with any whitespace around its word, with at least one
    rune before it and at least one after it. *)
Theorem X11_skip_comment_spellings (statement pre mk post : gostring) :
  IsCreateTable statement = true \/ IsAlterTable statement = true ->
  applyConversions statement (firstn 11 createTableConversions)
  = pre ++ mk ++ post ->
  pre <> [] -> post <> [] -> skip_comment mk ->
  ToSqlite3Dialect statement = [].
Proof.
  intros Hk HT Hpre Hpost Hmk.
  rewrite (create_route statement Hk), create_split_apply.
  rewrite (skipRule_process_any _ pre mk post HT Hpre Hpost Hmk).
  apply after_skip_empty.
Qed.

Lemma X11_skip_comment_spellings_witness :
  ToSqlite3Dialect
    (runes "alter table t /*  SQLITE3-SKIP */ modify c bigint") = [].
Proof.
  apply (X11_skip_comment_spellings
           (runes "alter table t /*  SQLITE3-SKIP */ modify c bigint")
           (runes "alter table t ")
           (runes "/*" ++ runes "  " ++ runes "SQLITE3-SKIP" ++ runes " "
            ++ runes "*/")
           (runes " modify c bigint")).
  - right. vm_compute. reflexivity.
  - vm_compute. reflexivity.
  - discriminate.
  - discriminate.
  - exists (runes "  "), (runes "SQLITE3-SKIP"), (runes " ").
    repeat split; reflexivity.
Defined.

(** ** INSERT IGNORE *)

Module Import insert_facts.
Import regexp.

(** Without assertions, what an expression matches does not depend on the
    text around the match. *)
Lemma lang_nolook : forall re pv pv' (u rs' rs'' : gostring),
  nolook re = true -> lang re pv u rs' -> lang re pv' u rs''.
Proof.
  induction re as [|c|c min g|r1 IH1 r2 IH2|r1 IH1 r2 IH2|n r1 IH1| | |];
    intros pv pv' u rs' rs'' Hn L; simpl in *; try discriminate; auto.
  - apply andb_prop in Hn. destruct Hn as [N1 N2].
    destruct L as (u1 & u2 & -> & L1 & L2).
    exists u1, u2. split; [reflexivity|]. split; eauto.
  - apply andb_prop in Hn. destruct Hn as [N1 N2].
    destruct L as [L|L]; [left|right]; eauto.
  - eauto.
Qed.

(** Such an expression is found in a text or not, wherever the text
    stands. *)
Lemma search_nolook (re : regex) (n n' p p' : nat) pv pv' (rs : gostring) :
  nolook re = true ->
  search re n p pv rs = None -> search re n' p' pv' rs = None.
Proof.
  intros Hn H.
  destruct (search re n' p' pv' rs) as [l|] eqn:E; [|reflexivity].
  exfalso. apply search_sound in E. destruct E as (pre & rs1 & -> & E).
  apply m_sound in E. destruct E as (u & rs' & cs' & -> & L & _).
  revert H. apply search_complete. apply m_complete.
  - eapply lang_nolook; eauto.
  - intros cs2. discriminate.
Qed.

Lemma skipn_exact (A : Type) (a b : list A) :
  skipn (List.length a) (a ++ b) = b.
Proof. induction a; simpl; auto. Qed.

Lemma insertIgnoreRule_prog :
  prog (r insertIgnoreRule)
  = cat_of (keyword "insert" ++ spaces 1 :: keyword "ignore" ++ []).
Proof. vm_compute. reflexivity. Qed.

Lemma insertIgnoreRule_groups : numSubexp (r insertIgnoreRule) = 0.
Proof. vm_compute. reflexivity. Qed.

Lemma insertIgnoreRule_nolook : nolook (prog (r insertIgnoreRule)) = true.
Proof. vm_compute. reflexivity. Qed.

Lemma insert_ignore_match (ws ins b ign rest : gostring) :
  forallb is_space ws = true -> spelled "insert" ins -> blank b = true ->
  spelled "ignore" ign ->
  doExecute (r insertIgnoreRule) (ws ++ ins ++ b ++ ign ++ rest) 0
  = Some [Some (List.length ws, List.length (ws ++ ins ++ b ++ ign))].
Proof.
  intros Hws Hi Hb Hg. destruct (blank_spaces _ Hb) as [Sb Lb].
  unfold doExecute. cbn [rune_before skipn].
  rewrite insertIgnoreRule_prog, insertIgnoreRule_groups.
  rewrite search_skip.
  2:{ intros a x t ->. unfold keyword at 1. rewrite m_keyword by reflexivity.
      destruct (space_in _ _ _ _ Hws eq_refl) as [Hx _].
      cbn [list_ascii_of_string].
      rewrite kw_prefix_space by (reflexivity || exact Hx). reflexivity. }
  apply search_here. cbn [Nat.add repeat].
  rewrite step_keyword by (reflexivity || assumption).
  apply step_spaces; auto.
  { eapply spelled_head; eauto; reflexivity. }
  rewrite step_keyword by (reflexivity || assumption).
  cbn [cat_of m]. unfold accept. cbn [set_nth]. rewrite !length_app.
  do 4 f_equal. lia.
Qed.

End insert_facts.

(** X12.  The first insert rule on a whole statement: INSERT IGNORE, in
    any letter case and with any whitespace between the two words and in
    front of them, becomes [insert or ignore]; the leading whitespace is
    kept, and so is the rest of the statement if it holds no further
    INSERT IGNORE. *)
Theorem X12_insert_ignore_rewrite (ws ins b ign rest : gostring) :
  forallb is_space ws = true -> spelled "insert" ins -> blank b = true ->
  spelled "ignore" ign ->
  regexp.MatchString (r insertIgnoreRule) rest = false ->
  nth_error insertConversions 0 = Some insertIgnoreRule
  /\ process insertIgnoreRule (ws ++ ins ++ b ++ ign ++ rest)
     = ws ++ runes "insert or ignore" ++ rest.
Proof.
  intros Hws Hi Hb Hg Hn. split; [reflexivity|].
  pose proof (insert_ignore_match ws ins b ign rest Hws Hi Hb Hg) as Hm.
  set (src := ws ++ ins ++ b ++ ign ++ rest) in *.
  assert (Es : src = (ws ++ ins ++ b ++ ign) ++ rest).
  { unfold src. rewrite <- !app_assoc. reflexivity. }
  unfold process.
  rewrite (ReplaceAllString_one _ _ _ _ _ _ Hm).
  - assert (E0 : firstn (List.length ws) src = ws) by apply firstn_exact.
    assert (E1 : skipn (List.length (ws ++ ins ++ b ++ ign)) src = rest).
    { rewrite Es. apply skipn_exact. }
    rewrite E0, E1. reflexivity.
  - destruct (blank_spaces _ Hb) as [_ Lb]. rewrite !length_app. lia.
  - unfold regexp.MatchString, regexp.doExecute in Hn. cbn [regexp.rune_before skipn] in Hn.
    unfold regexp.doExecute. rewrite Es at 2. rewrite skipn_exact.
    apply (search_nolook _ (regexp.numSubexp (r insertIgnoreRule)) _ 0 _ None).
    + apply insertIgnoreRule_nolook.
    + destruct (regexp.search _ _ 0 None rest); [discriminate|reflexivity].
Qed.

Lemma X12_insert_ignore_rewrite_witness :
  process insertIgnoreRule
    (runes "  " ++ runes "Insert" ++ [9%Z; 32%Z] ++ runes "IGNORE"
     ++ runes " into t values (1)")
  = runes "  " ++ runes "insert or ignore" ++ runes " into t values (1)".
Proof.
  apply (X12_insert_ignore_rewrite (runes "  ") (runes "Insert") [9%Z; 32%Z]
           (runes "IGNORE") (runes " into t values (1)"));
    [reflexivity|reflexivity|reflexivity|reflexivity|vm_compute; reflexivity].
Defined.

(** ** One rule on one text *)

(** X13.  What [process] does with the leftmost match.  If the pattern of
    the rule matches nowhere, the text is returned as it is.  Otherwise the
    output starts with the text in front of the leftmost match, unchanged,
    followed by the expansion of the template for that match. *)
Theorem X13_process_leftmost_match (rule : regexpMap) (text : gostring) :
  (regexp.MatchString (r rule) text = false /\ process rule text = text)
  \/ exists a0 a1 groups tail,
       regexp.doExecute (r rule) text 0 = Some (Some (a0, a1) :: groups)
       /\ a0 <= a1 /\ a1 <= List.length text
       /\ process rule text
          = firstn a0 text
              ++ regexp.expand 0 (runes (replacement rule)) text
                   (Some (a0, a1) :: groups)
              ++ tail.
Proof.
  unfold process.
  destruct (ReplaceAllString_cases (r rule) text (replacement rule))
    as [[Hn E]|H]; [left|right; exact H].
  split; [|exact E]. unfold regexp.MatchString. rewrite Hn. reflexivity.
Qed.
